(** * Point-sampling engine of ViaStitching/FillArea.py

    A shallow embedding of the three fill strategies of FillArea.py
    ([GridFillStrategy], [StarFillStrategy], [BridsonFillStrategy]) and the
    properties of their [generate_points] methods.

    Conventions of the embedding.
    - Python [int] values are [Z]; Python [float] values are real numbers
      ([R]): every floating-point operation is read as the exact operation on
      reals, so [math.sqrt] is [sqrt], [math.sin] is [sin], and so on.
      IEEE rounding of the individual operations is not modelled there;
      the properties that depend on it are stated on a second embedding of
      the same code whose float operations are parameters (see [Arith]),
      and hold whatever these operations round to.
    - A point is the tuple [(x, y)] of two [int]s.
    - The process-wide generator of the [random] module is a fixed sequence
      [rnd] of draws together with a cursor held in the [World]; each call
      of [random.random()] returns the draw under the cursor and advances it.
    - Exceptions ([IndexError], [ZeroDivisionError]) are results of the
      computation monad [M]; the [while] loop of the Bridson strategy runs on
      fuel and [Timeout] is the result of running out of it.
    - [pred_calls] is a ghost counter of the evaluations of
      [valid_predicate].
    - Of the class [FillArea], [_get_areas_on_copper] is embedded: the
      getters of pcbnew it calls on the board and on its areas are read as
      fields of records, the dict it builds is a [gmap], and the [KeyError]
      of a missing key is the left summand of its result. *)

From Stdlib Require Import Reals Lra Lia ZArith Bool String.
From stdpp Require Import base tactics option list relations strings gmap.

#[local] Open Scope Z_scope.

(** ** Python numerics *)

Definition Point : Type := Z * Z.

(** [math.floor(x)] for a float [x]. *)
Definition py_floor (x : R) : Z := Zfloor x.

(** [int(x)] for a float [x]: truncation toward zero. *)
Definition py_int (x : R) : Z :=
  if Rle_dec 0 x then Zfloor x else - Zfloor (- x).

(** [round(x)] for a float [x] (Python 3): nearest integer, ties to even.
    The result is already an [int], so [int(round(x))] is [py_round x]. *)
Definition py_round (x : R) : Z :=
  let f := Zfloor x in
  let d := (x - IZR f)%R in
  if Rlt_dec d (1 / 2) then f
  else if Rlt_dec (1 / 2) d then f + 1
  else if Z.even f then f else f + 1.

(** [range(n)] *)
Definition py_range (n : Z) : list Z := map Z.of_nat (seq 0 (Z.to_nat n)).

(** [[v] * n]: the empty list when [n <= 0]. *)
Definition py_list_mul {A : Type} (v : A) (n : Z) : list A :=
  replicate (Z.to_nat n) v.

(** Resolution of a subscript [i] against a list of length [n]: negative
    subscripts count from the end, anything else out of range raises. *)
Definition py_index (n : nat) (i : Z) : option nat :=
  if (0 <=? i) && (i <? Z.of_nat n) then Some (Z.to_nat i)
  else if (- Z.of_nat n <=? i) && (i <? 0) then Some (Z.to_nat (Z.of_nat n + i))
  else None.

(** ** Computations: exceptions, fuel and the world *)

Inductive Exn : Type := IndexError | ZeroDivisionError.

Inductive Res (A : Type) : Type :=
| Ok (a : A)
| Raise (e : Exn)
| Timeout.
Arguments Ok {A} a.
Arguments Raise {A} e.
Arguments Timeout {A}.

Record World : Type := mkWorld {
  rand_pos : nat;    (* cursor of the [random] module *)
  pred_calls : nat   (* ghost: evaluations of [valid_predicate] so far *)
}.

Definition M (A : Type) : Type := World -> Res (A * World).

Definition ret {A : Type} (a : A) : M A := fun w => Ok (a, w).

Definition bind {A B : Type} (c : M A) (k : A -> M B) : M B :=
  fun w => match c w with
           | Ok (a, w') => k a w'
           | Raise e => Raise e
           | Timeout => Timeout
           end.

Definition raise {A : Type} (e : Exn) : M A := fun _ => Raise e.

Notation "'let*' x := c 'in' k" := (bind c (fun x => k))
  (at level 10, x pattern, c at level 100, k at level 200, only parsing).

(** [for a in l: acc = body(a, acc)] *)
Fixpoint for_each {A B : Type} (l : list A) (acc : B) (body : A -> B -> M B)
  : M B :=
  match l with
  | [] => ret acc
  | a :: l' => let* acc' := body a acc in for_each l' acc' body
  end.

(** [a / b] on floats. *)
Definition py_truediv (a b : R) : M R :=
  if Req_dec_T b 0 then raise ZeroDivisionError else ret (a / b)%R.

(** [l[i]] *)
Definition py_getitem {A : Type} (l : list A) (i : Z) : M A :=
  match py_index (length l) i with
  | Some n => match l !! n with Some a => ret a | None => raise IndexError end
  | None => raise IndexError
  end.

(** [l[i] = v], returning the updated list. *)
Definition py_setitem {A : Type} (l : list A) (i : Z) (v : A) : M (list A) :=
  match py_index (length l) i with
  | Some n => ret (<[n := v]> l)
  | None => raise IndexError
  end.

(** ** Floating-point arithmetic, left abstract

    The definitions above and most of the file read a float operation as the
    exact operation on reals.  Where a property depends on how an operation
    rounds (a step count is the integer part of a quotient, a coordinate the
    rounding of a sum of products), the code is embedded a second time with
    the operations on floats as parameters: a float is the real number it
    represents, [of_int] is the conversion of an [int] operand, and [fadd],
    [fmul], [fquot] and [fsqrt] are [+], [*], [/] and [math.sqrt] on floats.
    [int], [round] and [math.floor] are exact functions of the float they are
    given and need no parameter.  The definitions of this second embedding
    carry the suffix [_in]. *)

Record Arith : Type := mkArith {
  of_int : Z -> R;
  fadd : R -> R -> R;
  fmul : R -> R -> R;
  fquot : R -> R -> R;
  fsqrt : R -> R
}.

(** Exact arithmetic on reals: with it the second embedding is the first. *)
Definition exact : Arith := mkArith IZR Rplus Rmult Rdiv sqrt.

(** What the properties below use of binary floating-point arithmetic, each
    of which holds of IEEE 754 doubles as long as no operation overflows:
    addition commutes; converting a non-negative [int] gives a non-negative
    float; a quotient of a non-negative float by a positive one is
    non-negative; [math.sqrt(2)] is positive; multiplying by 2 is exact,
    and for that reason [(x * 2) * b] and [x * (2 * b)] round to the same
    float. *)
Record Lawful (A : Arith) : Prop := mkLawful {
  fadd_comm : forall a b, fadd A a b = fadd A b a;
  of_int_nonneg : forall n, 0 <= n -> (0 <= of_int A n)%R;
  fquot_nonneg : forall a b, (0 <= a)%R -> (0 < b)%R -> (0 <= fquot A a b)%R;
  fsqrt_two : (0 < fsqrt A (of_int A 2))%R;
  fmul_two : forall b, fmul A (of_int A 2) b = (2 * b)%R;
  fmul_shift : forall x b,
    fmul A (of_int A (x * 2)) b = fmul A (of_int A x) (2 * b)%R
}.

(** [a / b] on floats in the arithmetic [A]. *)
Definition py_truediv_in (A : Arith) (a b : R) : M R :=
  if Req_dec_T b 0 then raise ZeroDivisionError else ret (fquot A a b).

(** ** FillStrategy *)

Record FillStrategy : Type := mkFillStrategy {
  x_range : Z * Z;
  y_range : Z * Z;
  valid_predicate : Z -> Z -> bool;
  centre_spacing : R
}.

(** [self.valid_predicate(x, y)], counted. *)
Definition call_predicate (self : FillStrategy) (x y : Z) : M bool :=
  fun w => Ok (valid_predicate self x y,
               mkWorld (rand_pos w) (S (pred_calls w))).

(** What one pass of the inner [for y_i in range(y_steps)] loop appends:
    the candidates of the row that pass the predicate, in order. *)
Definition emit_row (pred : Z -> Z -> bool) (cand : Z -> Point) (l : list Z)
  : list Point :=
  flat_map (fun y_i => let p := cand y_i in if pred p.1 p.2 then [p] else []) l.

(** The lattice enumerated by the two nested loops, x-major. *)
Definition lattice (pred : Z -> Z -> bool) (cand : Z -> Z -> Point)
    (x_steps y_steps : Z) : list Point :=
  flat_map (fun x_i => emit_row pred (cand x_i) (py_range y_steps))
           (py_range x_steps).

(** ** GridFillStrategy *)

Module GridFillStrategy.

Definition candidate (self : FillStrategy) (x_i y_i : Z) : Point :=
  (py_round (IZR x_i * centre_spacing self + IZR (x_range self).1),
   py_round (IZR y_i * centre_spacing self + IZR (y_range self).1)).

Definition generate_points (self : FillStrategy) : M (list Point) :=
  let* qx := py_truediv (IZR ((x_range self).2 - (x_range self).1))
                      (centre_spacing self) in
  let x_steps := py_int qx + 1 in
  let* qy := py_truediv (IZR ((y_range self).2 - (y_range self).1))
                      (centre_spacing self) in
  let y_steps := py_int qy + 1 in
  for_each (py_range x_steps) [] (fun x_i points =>
    for_each (py_range y_steps) points (fun y_i points =>
      let '(x, y) := candidate self x_i y_i in
      let* ok := call_predicate self x y in
      ret (if ok then points ++ [(x, y)] else points))).

(** The same method with the float operations of [A]. *)
Definition candidate_in (A : Arith) (self : FillStrategy) (x_i y_i : Z) : Point :=
  (py_round (fadd A (fmul A (of_int A x_i) (centre_spacing self))
                    (of_int A (x_range self).1)),
   py_round (fadd A (fmul A (of_int A y_i) (centre_spacing self))
                    (of_int A (y_range self).1))).

Definition generate_points_in (A : Arith) (self : FillStrategy) : M (list Point) :=
  let* qx := py_truediv_in A (of_int A ((x_range self).2 - (x_range self).1))
                           (centre_spacing self) in
  let x_steps := py_int qx + 1 in
  let* qy := py_truediv_in A (of_int A ((y_range self).2 - (y_range self).1))
                           (centre_spacing self) in
  let y_steps := py_int qy + 1 in
  for_each (py_range x_steps) [] (fun x_i points =>
    for_each (py_range y_steps) points (fun y_i points =>
      let '(x, y) := candidate_in A self x_i y_i in
      let* ok := call_predicate self x y in
      ret (if ok then points ++ [(x, y)] else points))).

End GridFillStrategy.

(** ** StarFillStrategy *)

Module StarFillStrategy.

Definition candidate (spacing : R) (self : FillStrategy) (x_i y_i : Z) : Point :=
  (py_round (IZR x_i * 2 * spacing + IZR (x_range self).1
             + (if y_i mod 2 =? 0 then 0 else spacing)),
   py_round (IZR y_i * spacing + IZR (y_range self).1)).

Definition generate_points (self : FillStrategy) : M (list Point) :=
  let* spacing := py_truediv (centre_spacing self) (sqrt 2) in
  let* qx := py_truediv (IZR ((x_range self).2 - (x_range self).1))
                      (2 * spacing) in
  let x_steps := py_int qx + 1 in
  let* qy := py_truediv (IZR ((y_range self).2 - (y_range self).1)) spacing in
  let y_steps := py_int qy + 1 in
  for_each (py_range x_steps) [] (fun x_i points =>
    for_each (py_range y_steps) points (fun y_i points =>
      let '(x, y) := candidate spacing self x_i y_i in
      let* ok := call_predicate self x y in
      ret (if ok then points ++ [(x, y)] else points))).

(** The same method with the float operations of [A]; [x_i * 2] is a
    product of two [int]s and [2 * spacing] a product of an [int] and a
    float. *)
Definition candidate_in (A : Arith) (spacing : R) (self : FillStrategy)
    (x_i y_i : Z) : Point :=
  (py_round (fadd A (fadd A (fmul A (of_int A (x_i * 2)) spacing)
                            (of_int A (x_range self).1))
                    (if y_i mod 2 =? 0 then 0%R else spacing)),
   py_round (fadd A (fmul A (of_int A y_i) spacing) (of_int A (y_range self).1))).

Definition generate_points_in (A : Arith) (self : FillStrategy) : M (list Point) :=
  let* spacing := py_truediv_in A (centre_spacing self) (fsqrt A (of_int A 2)) in
  let* qx := py_truediv_in A (of_int A ((x_range self).2 - (x_range self).1))
                           (fmul A (of_int A 2) spacing) in
  let x_steps := py_int qx + 1 in
  let* qy := py_truediv_in A (of_int A ((y_range self).2 - (y_range self).1))
                           spacing in
  let y_steps := py_int qy + 1 in
  for_each (py_range x_steps) [] (fun x_i points =>
    for_each (py_range y_steps) points (fun y_i points =>
      let '(x, y) := candidate_in A spacing self x_i y_i in
      let* ok := call_predicate self x y in
      ret (if ok then points ++ [(x, y)] else points))).

End StarFillStrategy.

(** ** Reading results *)

(** The value a computation returns or the exception it raises, the world
    it leaves aside. *)
Definition outcome {A : Type} (r : Res (A * World)) : Res A :=
  match r with
  | Ok (a, _) => Ok a
  | Raise e => Raise e
  | Timeout => Timeout
  end.

(** The list of points a call of the Bridson [generate_points] returns, the
    instance and the world aside. *)
Definition points_of {S : Type} (r : Res ((list Point * S) * World))
  : Res (list Point) :=
  match r with
  | Ok ((out, _), _) => Ok out
  | Raise e => Raise e
  | Timeout => Timeout
  end.

(** ** The lattices as section 4 of the specification words them *)

(** [floor((max - min) / pitch) + 1] *)
Definition floor_steps (range : Z * Z) (pitch : R) : Z :=
  py_floor (IZR (range.2 - range.1) / pitch) + 1.

(** Section 4.3: [x = round(x0 + x_i*2s + (s if y_i is odd else 0))],
    [y = round(y0 + y_i*s)] with [s = spacing/sqrt(2)]. *)
Definition star_spec_candidate (self : FillStrategy) (x_i y_i : Z) : Point :=
  let s := (centre_spacing self / sqrt 2)%R in
  (py_round (IZR (x_range self).1 + IZR x_i * (2 * s)
             + (if Z.odd y_i then s else 0)),
   py_round (IZR (y_range self).1 + IZR y_i * s)).

(** Section 4.3: the candidates of [x_steps = floor((x1-x0)/(2s)) + 1] by
    [y_steps = floor((y1-y0)/s) + 1] lattice indices that pass the predicate. *)
Definition star_spec (self : FillStrategy) : list Point :=
  let s := (centre_spacing self / sqrt 2)%R in
  lattice (valid_predicate self) (star_spec_candidate self)
          (floor_steps (x_range self) (2 * s)) (floor_steps (y_range self) s).

(** ** The same lattices, their formulas evaluated in the arithmetic [A] *)

(** [floor((max - min) / pitch) + 1] *)
Definition floor_steps_in (A : Arith) (range : Z * Z) (pitch : R) : Z :=
  py_floor (fquot A (of_int A (range.2 - range.1)) pitch) + 1.

(** Section 4.2: candidate [(round(x0 + x_i*spacing), round(y0 + y_i*spacing))]. *)
Definition grid_spec_candidate_in (A : Arith) (self : FillStrategy)
    (x_i y_i : Z) : Point :=
  (py_round (fadd A (of_int A (x_range self).1)
                    (fmul A (of_int A x_i) (centre_spacing self))),
   py_round (fadd A (of_int A (y_range self).1)
                    (fmul A (of_int A y_i) (centre_spacing self)))).

(** [s = spacing / sqrt(2)], the row pitch of the star lattice. *)
Definition star_pitch (A : Arith) (self : FillStrategy) : R :=
  fquot A (centre_spacing self) (fsqrt A (of_int A 2)).

(** Section 4.3: [x = round(x0 + x_i*2s + (s if y_i is odd else 0))],
    [y = round(y0 + y_i*s)], where [2s] is the column pitch. *)
Definition star_spec_candidate_in (A : Arith) (self : FillStrategy)
    (x_i y_i : Z) : Point :=
  let s := star_pitch A self in
  (py_round (fadd A (fadd A (of_int A (x_range self).1)
                            (fmul A (of_int A x_i) (2 * s)))
                    (if Z.odd y_i then s else 0%R)),
   py_round (fadd A (of_int A (y_range self).1) (fmul A (of_int A y_i) s))).

(** Section 4.3: the candidates of [floor((x1-x0)/(2s)) + 1] by
    [floor((y1-y0)/s) + 1] lattice indices that pass the predicate. *)
Definition star_spec_in (A : Arith) (self : FillStrategy) : list Point :=
  let s := star_pitch A self in
  lattice (valid_predicate self) (star_spec_candidate_in A self)
          (floor_steps_in A (x_range self) (2 * s))
          (floor_steps_in A (y_range self) s).

(** ** Concrete instances used in examples *)

(** Inverted x range: [StarFillStrategy((0, -1), (0, 0), lambda x, y: True, 2)]. *)
Definition star_inverted : FillStrategy :=
  mkFillStrategy (0, -1) (0, 0) (fun _ _ => true) 2.


(** Draws that are all 0, and draws that are all 1/2. *)
Definition rnd_zero : nat -> R := fun _ => 0%R.
Definition rnd_half : nat -> R := fun _ => (1 / 2)%R.

(** A predicate that holds on the line [x = 0]: [lambda x, y: x == 0]. *)
Definition on_y_axis : Z -> Z -> bool := fun x _ => x =? 0.

(** The arguments of the example of the specification: ranges (0, 10) by
    (0, 10), the always-true predicate and spacing 5. *)
Definition square_example : FillStrategy :=
  mkFillStrategy (0, 10) (0, 10) (fun _ _ => true) 5.

(** ** The [random] module *)

Module PyRandom.
Section Draws.
(** The draws that successive calls of [random.random()] return. *)
Variable rnd : nat -> R.

(** [random.random()] *)
Definition random : M R :=
  fun w => Ok (rnd (rand_pos w), mkWorld (S (rand_pos w)) (pred_calls w)).

(** [random.uniform(a, b)], that is [a + (b - a) * random()]. *)
Definition uniform (a b : R) : M R :=
  let* u := random in ret (a + (b - a) * u)%R.
End Draws.
End PyRandom.

(** ** BridsonFillStrategy *)

Module BridsonFillStrategy.

(** The instance: the four attributes of [FillStrategy] and what [__init__]
    adds.  [_checked] and [_points] are the only attributes assigned to after
    construction. *)
Record t : Type := mk {
  base : FillStrategy;
  k : nat;
  _cell_size : R;
  _x_steps : Z;
  _y_steps : Z;
  _checked : list (list bool);
  _points : list (list (option Point))
}.

Definition set_checked (self : t) (c : list (list bool)) : t :=
  mk (base self) (k self) (_cell_size self) (_x_steps self) (_y_steps self)
     c (_points self).

Definition set_points (self : t) (p : list (list (option Point))) : t :=
  mk (base self) (k self) (_cell_size self) (_x_steps self) (_y_steps self)
     (_checked self) p.

(** The rows are built by a list comprehension, so they are distinct lists:
    assigning into one row leaves the others alone. *)
Definition __init__ (x_range y_range : Z * Z) (valid_predicate : Z -> Z -> bool)
    (centre_spacing : R) : M t :=
  let super := mkFillStrategy x_range y_range valid_predicate centre_spacing in
  let* cell_size := py_truediv centre_spacing (sqrt 2) in
  let* qx := py_truediv (IZR (x_range.2 - x_range.1)) cell_size in
  let x_steps := py_int qx in
  let* qy := py_truediv (IZR (y_range.2 - y_range.1)) cell_size in
  let y_steps := py_int qy in
  ret (mk super 10 cell_size x_steps y_steps
          (map (fun _ => py_list_mul false x_steps) (py_range y_steps))
          (map (fun _ => py_list_mul None x_steps) (py_range y_steps))).

(** [grid[i][j]] *)
Definition get2d {A : Type} (grid : list (list A)) (i j : Z) : M A :=
  let* row := py_getitem grid i in py_getitem row j.

(** [grid[i][j] = v] *)
Definition set2d {A : Type} (grid : list (list A)) (i j : Z) (v : A)
  : M (list (list A)) :=
  let* row := py_getitem grid i in
  let* row' := py_setitem row j v in
  py_setitem grid i row'.

Definition _cell_index (self : t) (point : Point) : M (Z * Z) :=
  let* qx := py_truediv (IZR (point.1 - (x_range (base self)).1))
                        (_cell_size self) in
  let* qy := py_truediv (IZR (point.2 - (y_range (base self)).1))
                        (_cell_size self) in
  ret (py_floor qx, py_floor qy).

Definition OFFSETS : list (Z * Z) :=
  [(-1, -1); (-1, 0); (-1, 1); (0, 1); (1, 1); (1, 0); (1, -1); (0, -1);
   (-2, -1); (-2, 0); (-2, 1); (-1, 2); (0, 2); (1, 2); (2, 1); (2, 0);
   (2, -1); (1, -2); (0, -2); (-1, -2)].

(** [x_i < 0 or x_i >= self._x_steps or y_i < 0 or y_i >= self._y_steps] *)
Definition out_of_grid (self : t) (x_i y_i : Z) : bool :=
  (x_i <? 0) || (x_i >=? _x_steps self) || (y_i <? 0) || (y_i >=? _y_steps self).

(** [math.sqrt((nbr[0] - point[0]) ** 2 + (nbr[1] - point[1]) ** 2)] *)
Definition distance (nbr point : Point) : R :=
  sqrt (IZR ((nbr.1 - point.1) ^ 2 + (nbr.2 - point.2) ^ 2)).

(** The loop over [OFFSETS] of [_is_valid]: [false] stands for its
    [return False], [true] for falling through. *)
Fixpoint neighbours_clear (self : t) (point : Point) (x_i y_i : Z)
    (offsets : list (Z * Z)) : M bool :=
  match offsets with
  | [] => ret true
  | (ox_i, oy_i) :: rest =>
      let px_i := x_i + ox_i in
      let py_i := y_i + oy_i in
      if out_of_grid self px_i py_i
      then neighbours_clear self point x_i y_i rest
      else
        let* nbr := get2d (_points self) py_i px_i in
        match nbr with
        | Some n =>
            if Rlt_dec (distance n point) (centre_spacing (base self))
            then ret false
            else neighbours_clear self point x_i y_i rest
        | None => neighbours_clear self point x_i y_i rest
        end
  end.

(** A point is a non-empty tuple, hence truthy; [None] is falsy. *)
Definition _is_valid (self : t) (point : Point) : M bool :=
  let* (x_i, y_i) := _cell_index self point in
  if out_of_grid self x_i y_i then ret false
  else
    let* occupant := get2d (_points self) y_i x_i in
    match occupant with
    | Some _ => ret false
    | None =>
        let* clear := neighbours_clear self point x_i y_i OFFSETS in
        if clear
        then call_predicate (base self) point.1 point.2
        else ret false
    end.

(** [_cell_index], the distance of the test and [_is_valid] with the float
    operations of [A]: the differences and the sum of squares are computed
    on [int]s and converted, the quotient and the square root are float
    operations, [math.floor] and [<] are exact. *)
Definition _cell_index_in (A : Arith) (self : t) (point : Point) : M (Z * Z) :=
  let* qx := py_truediv_in A (of_int A (point.1 - (x_range (base self)).1))
                           (_cell_size self) in
  let* qy := py_truediv_in A (of_int A (point.2 - (y_range (base self)).1))
                           (_cell_size self) in
  ret (py_floor qx, py_floor qy).

Definition distance_in (A : Arith) (nbr point : Point) : R :=
  fsqrt A (of_int A ((nbr.1 - point.1) ^ 2 + (nbr.2 - point.2) ^ 2)).

Fixpoint neighbours_clear_in (A : Arith) (self : t) (point : Point) (x_i y_i : Z)
    (offsets : list (Z * Z)) : M bool :=
  match offsets with
  | [] => ret true
  | (ox_i, oy_i) :: rest =>
      let px_i := x_i + ox_i in
      let py_i := y_i + oy_i in
      if out_of_grid self px_i py_i
      then neighbours_clear_in A self point x_i y_i rest
      else
        let* nbr := get2d (_points self) py_i px_i in
        match nbr with
        | Some n =>
            if Rlt_dec (distance_in A n point) (centre_spacing (base self))
            then ret false
            else neighbours_clear_in A self point x_i y_i rest
        | None => neighbours_clear_in A self point x_i y_i rest
        end
  end.

Definition _is_valid_in (A : Arith) (self : t) (point : Point) : M bool :=
  let* (x_i, y_i) := _cell_index_in A self point in
  if out_of_grid self x_i y_i then ret false
  else
    let* occupant := get2d (_points self) y_i x_i in
    match occupant with
    | Some _ => ret false
    | None =>
        let* clear := neighbours_clear_in A self point x_i y_i OFFSETS in
        if clear
        then call_predicate (base self) point.1 point.2
        else ret false
    end.

(** The final scan: the occupied cells, row by row. *)
Definition collect (grid : list (list (option Point))) : list Point :=
  flat_map (fun row =>
    flat_map (fun cell => match cell with Some p => [p] | None => [] end) row)
    grid.

Section WithRandom.
Variable rnd : nat -> R.

Definition _generate_random_point_in_cell (self : t) (i j : Z) : M Point :=
  let* u := PyRandom.random rnd in
  let x := (IZR (x_range (base self)).1 + (IZR j + u) * _cell_size self)%R in
  let* v := PyRandom.random rnd in
  let y := (IZR (y_range (base self)).1 + (IZR i + v) * _cell_size self)%R in
  ret (py_round x, py_round y).

Definition _generate_bridson_points (self : t) (base_pt : Point)
  : M (list Point) :=
  for_each (py_range (Z.of_nat (k self))) [] (fun _ points =>
    let* u := PyRandom.random rnd in
    let r := (sqrt (3 * u + 1) * centre_spacing (base self))%R in
    let* th := PyRandom.uniform rnd 0 (2 * PI) in
    ret (points ++ [(py_round (IZR base_pt.1 + r * sin th),
                     py_round (IZR base_pt.2 + r * cos th))])).


(** The [for _ in range(self.k)] loop of the outer scan, with [n] attempts
    left; the [break] is the branch that does not recurse.  The head of
    [active] is the last element of the Python list. *)
Fixpoint seed_cell (n : nat) (self : t) (active : list Point) (i j : Z)
  : M (t * list Point) :=
  match n with
  | O => ret (self, active)
  | S n' =>
      let* point := _generate_random_point_in_cell self i j in
      let* ok := _is_valid self point in
      if ok then
        let* pts := set2d (_points self) i j (Some point) in
        ret (set_points self pts, point :: active)
      else seed_cell n' self active i j
  end.

(** The body of [for point in random_points]. *)
Definition place_offspring (point : Point) (st : t * list Point)
  : M (t * list Point) :=
  let '(self, active) := st in
  let* ok := _is_valid self point in
  if ok then
    let* (x_i, y_i) := _cell_index self point in
    let* pts := set2d (_points self) y_i x_i (Some point) in
    let self := set_points self pts in
    let active := point :: active in
    let* chk := set2d (_checked self) y_i x_i true in
    ret (set_checked self chk, active)
  else ret (self, active).

(** [while active: ...] *)
Fixpoint drain (fuel : nat) (self : t) (active : list Point)
  : M (t * list Point) :=
  match active with
  | [] => ret (self, active)
  | base_pt :: active =>
      match fuel with
      | O => fun _ => Timeout
      | S fuel' =>
          let* random_points := _generate_bridson_points self base_pt in
          let* (self, active) :=
            for_each random_points (self, active) place_offspring in
          drain fuel' self active
      end
  end.

(** The body of the two nested [for] loops of [generate_points]. *)
Definition visit_cell (fuel : nat) (i j : Z) (st : t * list Point)
  : M (t * list Point) :=
  let '(self, active) := st in
  let* checked := get2d (_checked self) i j in
  if checked then ret (self, active)
  else
    let* (self, active) := seed_cell (k self) self active i j in
    let* chk := set2d (_checked self) i j true in
    let self := set_checked self chk in
    drain fuel self active.

(** [generate_points], returning the list and the instance as the call
    leaves it. *)
Definition generate_points (fuel : nat) (self : t) : M (list Point * t) :=
  let* (self, active) :=
    for_each (py_range (_y_steps self)) (self, []) (fun i st =>
      for_each (py_range (_x_steps self)) st (fun j st =>
        visit_cell fuel i j st)) in
  ret (collect (_points self), self).
End WithRandom.

(** [BridsonFillStrategy(x_range, y_range, valid_predicate, centre_spacing)
    .generate_points()] *)
Definition run (rnd : nat -> R) (fuel : nat) (x_range y_range : Z * Z)
    (valid_predicate : Z -> Z -> bool) (centre_spacing : R) : M (list Point) :=
  let* self := __init__ x_range y_range valid_predicate centre_spacing in
  let* (out, _) := generate_points rnd fuel self in
  ret out.

(** *** Vocabulary of the properties *)

(** The instance that [__init__] returns when it raises nothing. *)
Definition fresh (x_range y_range : Z * Z) (valid_predicate : Z -> Z -> bool)
    (centre_spacing : R) : t :=
  let cell_size := (centre_spacing / sqrt 2)%R in
  let x_steps := py_int (IZR (x_range.2 - x_range.1) / cell_size) in
  let y_steps := py_int (IZR (y_range.2 - y_range.1) / cell_size) in
  mk (mkFillStrategy x_range y_range valid_predicate centre_spacing)
     10 cell_size x_steps y_steps
     (map (fun _ => py_list_mul false x_steps) (py_range y_steps))
     (map (fun _ => py_list_mul None x_steps) (py_range y_steps)).

(** Cell [(i, j)] of a grid, row [i] and column [j], when it exists. *)
Definition cell {A : Type} (grid : list (list A)) (i j : nat) : option A :=
  match grid !! i with Some row => row !! j | None => None end.

(** The grid after [grid[i][j] = v]. *)
Definition upd {A : Type} (grid : list (list A)) (i j : nat) (v : A)
  : list (list A) :=
  alter (fun row => <[j := v]> row) i grid.

(** A grid of [ys] rows of [xs] cells. *)
Definition dims {A : Type} (grid : list (list A)) (ys xs : Z) : Prop :=
  length grid = Z.to_nat ys /\ Forall (fun row => length row = Z.to_nat xs) grid.

Definition in_grid (self : t) (x_i y_i : Z) : Prop :=
  0 <= x_i < _x_steps self /\ 0 <= y_i < _y_steps self.

(** The value of [_cell_index(point)]. *)
Definition true_cell (self : t) (point : Point) : Z * Z :=
  (py_floor (IZR (point.1 - (x_range (base self)).1) / _cell_size self),
   py_floor (IZR (point.2 - (y_range (base self)).1) / _cell_size self)).

(** The value of [_generate_random_point_in_cell(i, j)] for the draws [u], [v]. *)
Definition seed_point (self : t) (i j : Z) (u v : R) : Point :=
  (py_round (IZR (x_range (base self)).1 + (IZR j + u) * _cell_size self),
   py_round (IZR (y_range (base self)).1 + (IZR i + v) * _cell_size self)).

(** The points of one row, as the inner loop of the final scan collects them. *)
Definition row_points (row : list (option Point)) : list Point :=
  flat_map (fun c => match c with Some p => [p] | None => [] end) row.

(** The number of cells of the grid and of occupied ones. *)
Definition cells (self : t) : nat :=
  (Z.to_nat (_y_steps self) * Z.to_nat (_x_steps self))%nat.

Definition occupied (self : t) : nat := length (collect (_points self)).

(** What [_is_valid(point)] has established when it returns [True]. *)
Record accepts (self : t) (point : Point) : Prop := mkAccepts {
  acc_in_grid : in_grid self (true_cell self point).1 (true_cell self point).2;
  acc_empty :
    cell (_points self) (Z.to_nat (true_cell self point).2)
         (Z.to_nat (true_cell self point).1) = Some None;
  acc_clear : forall ox oy n,
    (ox, oy) ∈ OFFSETS ->
    in_grid self ((true_cell self point).1 + ox) ((true_cell self point).2 + oy) ->
    cell (_points self) (Z.to_nat ((true_cell self point).2 + oy))
         (Z.to_nat ((true_cell self point).1 + ox)) = Some (Some n) ->
    ~ (distance n point < centre_spacing (base self))%R;
  acc_pred : valid_predicate (base self) point.1 point.2 = true
}.

(** The value of [_cell_index(point)] in the arithmetic [A], and the three
    tests of [_is_valid] that come before the predicate, in that
    arithmetic. *)
Definition true_cell_in (A : Arith) (self : t) (point : Point) : Z * Z :=
  (py_floor (fquot A (of_int A (point.1 - (x_range (base self)).1)) (_cell_size self)),
   py_floor (fquot A (of_int A (point.2 - (y_range (base self)).1)) (_cell_size self))).

Record unobstructed_in (A : Arith) (self : t) (point : Point) : Prop :=
  mkUnobstructedIn {
  uni_in_grid :
    in_grid self (true_cell_in A self point).1 (true_cell_in A self point).2;
  uni_empty :
    cell (_points self) (Z.to_nat (true_cell_in A self point).2)
         (Z.to_nat (true_cell_in A self point).1) = Some None;
  uni_clear : forall ox oy n,
    (ox, oy) ∈ OFFSETS ->
    in_grid self ((true_cell_in A self point).1 + ox)
            ((true_cell_in A self point).2 + oy) ->
    cell (_points self) (Z.to_nat ((true_cell_in A self point).2 + oy))
         (Z.to_nat ((true_cell_in A self point).1 + ox)) = Some (Some n) ->
    ~ (distance_in A n point < centre_spacing (base self))%R
}.

(** The assignments [generate_points] makes to the instance, as steps:
    a cell of the outer scan is marked checked without a point, or with the
    seed point the scan found for it, or an offspring point is stored in the
    cell of its index and that cell is marked. *)
Inductive step (rnd : nat -> R) : t -> t -> Prop :=
| step_mark (self : t) (i j : Z) :
    in_grid self j i ->
    step rnd self
      (set_checked self (upd (_checked self) (Z.to_nat i) (Z.to_nat j) true))
| step_seed (self : t) (i j : Z) (n m : nat) (p : Point) :
    in_grid self j i ->
    cell (_points self) (Z.to_nat i) (Z.to_nat j) = Some None ->
    p = seed_point self i j (rnd n) (rnd m) ->
    accepts self p ->
    step rnd self
      (set_checked
         (set_points self (upd (_points self) (Z.to_nat i) (Z.to_nat j) (Some p)))
         (upd (_checked self) (Z.to_nat i) (Z.to_nat j) true))
| step_offspring (self : t) (p : Point) :
    accepts self p ->
    step rnd self
      (set_checked
         (set_points self
            (upd (_points self) (Z.to_nat (true_cell self p).2)
                 (Z.to_nat (true_cell self p).1) (Some p)))
         (upd (_checked self) (Z.to_nat (true_cell self p).2)
              (Z.to_nat (true_cell self p).1) true)).

(** What the loops rely on: no division by zero in [_cell_index], both grids
    of the announced size, and no point in a cell not yet checked. *)
Record Inv (self : t) : Prop := mkInv {
  inv_cell_size : _cell_size self <> 0%R;
  inv_checked : dims (_checked self) (_y_steps self) (_x_steps self);
  inv_points : dims (_points self) (_y_steps self) (_x_steps self);
  inv_unchecked : forall i j,
    cell (_checked self) i j = Some false -> cell (_points self) i j = Some None
}.

(** From [self] in world [w] the run has reached [self'] in world [w']
    through assignments of [step], evaluating the predicate at most [budget]
    times plus [k] times for each cell that became occupied. *)
Definition advances (rnd : nat -> R) (self : t) (w : World) (self' : t)
    (w' : World) (budget : nat) : Prop :=
  rtc (step rnd) self self' /\ Inv self' /\
  (pred_calls w' + k self * occupied self
   <= pred_calls w + budget + k self * occupied self')%nat.

(** Fuel that is enough for every [while] loop of a run. *)
Definition fuel_bound (self : t) : nat := (2 * cells self + 1)%nat.

(** Every point stored in the grid satisfies [Q]. *)
Definition stored (Q : Point -> Prop) (self : t) : Prop :=
  forall i j p, cell (_points self) i j = Some (Some p) -> Q p.

(** The bounding rectangle, closed at the minimum and open at the maximum. *)
Definition in_rectangle (self : FillStrategy) (p : Point) : Prop :=
  ((x_range self).1 <= p.1 < (x_range self).2)
  /\ ((y_range self).1 <= p.2 < (y_range self).2).

(** [BridsonFillStrategy((0, 2), (0, 2), lambda x, y: x == 0, 2)]: the cell
    size is [sqrt(2)] and the grid has the one cell (0, 0). *)
Definition one_cell : t := fresh (0, 2) (0, 2) on_y_axis 2.

(** The attributes of [one_cell], computed. *)
Definition one_cell_built : t :=
  mk (mkFillStrategy (0, 2) (0, 2) on_y_axis 2) 10 (2 / sqrt 2) 1 1
     [[false]] [[None]].

(** [one_cell_built] once the scan has marked its cell, with and without a
    point in it. *)
Definition one_cell_marked (c : option Point) : t :=
  mk (mkFillStrategy (0, 2) (0, 2) on_y_axis 2) 10 (2 / sqrt 2) 1 1
     [[true]] [[c]].

(** A two-by-two instance, ranges (0, 3) by (0, 3), spacing 2 and the
    always-true predicate, with the given flags and points. *)
Definition two_by_two (chk : list (list bool)) (pts : list (list (option Point)))
  : t :=
  mk (mkFillStrategy (0, 3) (0, 3) (fun _ _ => true) 2) 10 (2 / sqrt 2) 2 2
     chk pts.

(** Every cell of the grid is marked checked. *)
Definition all_checked (self : t) : Prop :=
  forall i j, in_grid self j i ->
    cell (_checked self) (Z.to_nat i) (Z.to_nat j) = Some true.

(** The attributes that [__init__] sets and nothing assigns to afterwards. *)
Definition params (self : t) : FillStrategy * nat * R * Z * Z :=
  (base self, k self, _cell_size self, _x_steps self, _y_steps self).



(** A stored point is within half a unit of the cell that holds it. *)
Definition near (self : t) (i j : nat) (p : Point) : Prop :=
  (IZR (x_range (base self)).1 + INR j * _cell_size self - 1 / 2 <= IZR p.1
   <= IZR (x_range (base self)).1 + (INR j + 1) * _cell_size self + 1 / 2)%R
  /\ (IZR (y_range (base self)).1 + INR i * _cell_size self - 1 / 2 <= IZR p.2
      <= IZR (y_range (base self)).1 + (INR i + 1) * _cell_size self + 1 / 2)%R.


(** The output as a scan of the cell indices in row-major order. *)
Definition scan (self : t) : list Point :=
  flat_map (fun i =>
    flat_map (fun j =>
      match cell (_points self) (Z.to_nat i) (Z.to_nat j) with
      | Some (Some p) => [p]
      | _ => []
      end) (py_range (_x_steps self)))
    (py_range (_y_steps self)).


End BridsonFillStrategy.

(** ** More vocabulary *)

(** The same strategy with another predicate. *)
Definition with_predicate (self : FillStrategy) (pred : Z -> Z -> bool)
  : FillStrategy :=
  mkFillStrategy (x_range self) (y_range self) pred (centre_spacing self).



(** ** FillArea: the areas of the board on copper layers *)

Module FillArea.

(** What [_get_areas_on_copper] reads of a zone of the board, one field for
    each getter it calls. *)
Record Area : Type := mkArea {
  GetNetname : string;
  GetTimeStamp : Z;
  IsOnCopperLayer : bool;
  GetIsKeepout : bool;
  IsSelected : bool;
  GetLayer : Z
}.

(** What it reads of [self.pcb]: [GetEnabledLayers().CuStack()] and the
    areas [GetArea(0)], ..., [GetArea(GetAreaCount() - 1)]. *)
Record Board : Type := mkBoard {
  CuStack : list Z;
  areas_of : list Area
}.

(** The [KeyError] of a subscript on a dict without the key. *)
Inductive KeyError : Type := mkKeyError (key : Z).

(** The [lambda x] of [_get_areas_on_copper]; [None] for [net_name] and for
    [timestamp] switches the test off. *)
Definition predicate (net_name : option string) (only_selected : bool)
    (timestamp : option Z) (x : Area) : bool :=
  (match net_name with
   | None => true
   | Some n => String.eqb (GetNetname x) n
   end)
  && (match timestamp with
      | None => true
      | Some ts => GetTimeStamp x =? ts
      end)
  && IsOnCopperLayer x
  && negb (GetIsKeepout x)
  && (IsSelected x || negb only_selected).

(** [areas[area.GetLayer()].append(area)] *)
Definition append_area (areas : gmap Z (list Area)) (area : Area)
  : KeyError + gmap Z (list Area) :=
  match areas !! GetLayer area with
  | Some l => inr (<[GetLayer area := l ++ [area]]> areas)
  | None => inl (mkKeyError (GetLayer area))
  end.

(** The [for area in filter(...)] loop. *)
Fixpoint place_areas (l : list Area) (areas : gmap Z (list Area))
  : KeyError + gmap Z (list Area) :=
  match l with
  | [] => inr areas
  | area :: l' =>
      match append_area areas area with
      | inr areas' => place_areas l' areas'
      | inl e => inl e
      end
  end.

Definition _get_areas_on_copper (pcb : Board) (net_name : option string)
    (only_selected : bool) (timestamp : option Z)
  : KeyError + gmap Z (list Area) :=
  let copper_layer_ids : gset Z := list_to_set (CuStack pcb) in
  let areas : gmap Z (list Area) := gset_to_gmap [] copper_layer_ids in
  place_areas (List.filter (predicate net_name only_selected timestamp)
                           (areas_of pcb))
              areas.

(** A board with the copper layers 0 and 31 and three zones: one of net GND
    on layer 0, a keepout on layer 0, and one of net GND on layer 31. *)
Definition two_layer_board : Board :=
  mkBoard [0; 31]
    [mkArea "GND" 0 true false false 0;
     mkArea "GND" 0 true true false 0;
     mkArea "GND" 0 true false true 31].

(** A board whose only enabled copper layer is 0, with a zone on layer 31. *)
Definition stray_zone_board : Board :=
  mkBoard [0] [mkArea "GND" 0 true false false 31].

End FillArea.

(** * Properties *)

(** ** Python numerics *)

Lemma py_floor_bound (x : R) : (IZR (py_floor x) <= x < IZR (py_floor x) + 1)%R.
Proof. apply Zfloor_bound. Qed.

Lemma py_floor_eq (z : Z) (x : R) :
  (IZR z <= x < IZR z + 1)%R -> py_floor x = z.
Proof. apply Zfloor_eq. Qed.

Lemma py_int_nonneg (x : R) : (0 <= x)%R -> py_int x = Zfloor x.
Proof. intros H. unfold py_int. destruct (Rle_dec 0 x); [done | lra]. Qed.

Lemma py_int_eq_nonneg (z : Z) (x : R) :
  (0 <= x)%R -> (IZR z <= x < IZR z + 1)%R -> py_int x = z.
Proof. intros H0 H. rewrite py_int_nonneg by done. by apply Zfloor_eq. Qed.

Lemma py_int_IZR (z : Z) : py_int (IZR z) = z.
Proof.
  unfold py_int. destruct (Rle_dec 0 (IZR z)).
  - apply ZfloorZ.
  - rewrite ZfloorNZ. lia.
Qed.

(** Truncation of a value in (-1, 0] is 0, where [math.floor] gives -1 below 0. *)
Lemma py_int_small_neg (x : R) : (-1 < x <= 0)%R -> py_int x = 0.
Proof.
  intros [H1 H2]. unfold py_int. destruct (Rle_dec 0 x).
  - apply Zfloor_eq. simpl. lra.
  - assert (Zfloor (- x) = 0) as ->; [apply Zfloor_eq; simpl; lra | done].
Qed.

Lemma py_int_nonpos (x : R) : (x <= 0)%R -> py_int x <= 0.
Proof.
  intros H. unfold py_int. destruct (Rle_dec 0 x).
  - assert (x = 0%R) as -> by lra. change 0%R with (IZR 0). rewrite ZfloorZ. lia.
  - assert (0 <= Zfloor (- x)); [| lia]. apply Zfloor_lub. simpl. lra.
Qed.



Lemma py_round_IZR (z : Z) : py_round (IZR z) = z.
Proof.
  unfold py_round. rewrite ZfloorZ.
  destruct (Rlt_dec _ _) as [H1|H1]; [done | lra].
Qed.

Lemma py_round_down (z : Z) (x : R) :
  (IZR z <= x < IZR z + 1 / 2)%R -> py_round x = z.
Proof.
  intros H. unfold py_round.
  assert (Zfloor x = z) as -> by (apply Zfloor_eq; lra).
  destruct (Rlt_dec _ _) as [H1|H1]; [done | lra].
Qed.

Lemma py_round_up (z : Z) (x : R) :
  (IZR z - 1 / 2 < x < IZR z)%R -> py_round x = z.
Proof.
  intros H. unfold py_round.
  assert (Zfloor x = z - 1) as ->.
  { apply Zfloor_eq. rewrite minus_IZR. lra. }
  rewrite minus_IZR.
  destruct (Rlt_dec _ _) as [H1|H1]; [lra|].
  destruct (Rlt_dec _ _) as [H2|H2]; [lia | lra].
Qed.

Lemma py_range_length (n : Z) : length (py_range n) = Z.to_nat n.
Proof. unfold py_range. by rewrite length_map, length_seq. Qed.

Lemma py_range_lookup (n : Z) (i : nat) :
  (i < Z.to_nat n)%nat -> py_range n !! i = Some (Z.of_nat i).
Proof.
  intros H. unfold py_range. rewrite list_lookup_fmap.
  rewrite lookup_seq_lt by done. done.
Qed.

Lemma py_range_elem (n x : Z) : x ∈ py_range n <-> 0 <= x < n.
Proof.
  unfold py_range. rewrite list_elem_of_fmap. split.
  - intros (i & -> & Hi). apply elem_of_seq in Hi. lia.
  - intros H. exists (Z.to_nat x). split; [lia|]. apply elem_of_seq. lia.
Qed.

Lemma py_range_nonpos (n : Z) : n <= 0 -> py_range n = [].
Proof. intros H. unfold py_range. by replace (Z.to_nat n) with 0%nat by lia. Qed.

Lemma py_index_in_range (n : nat) (i : Z) :
  0 <= i < Z.of_nat n -> py_index n i = Some (Z.to_nat i).
Proof.
  intros H. unfold py_index.
  destruct (0 <=? i) eqn:E1; [|lia]. destruct (i <? Z.of_nat n) eqn:E2; [done|lia].
Qed.

Lemma sqrt2_pos : (0 < sqrt 2)%R.
Proof. apply sqrt_lt_R0. lra. Qed.

Lemma sqrt2_sqr : (sqrt 2 * sqrt 2 = 2)%R.
Proof. apply sqrt_sqrt. lra. Qed.

Lemma sqrt2_bounds : (1.41 < sqrt 2 < 1.42)%R.
Proof.
  pose proof sqrt2_pos. pose proof sqrt2_sqr. split; nra.
Qed.

(** ** Loops that filter lattice candidates (Grid and Star) *)

Lemma for_each_app {A B : Type} (l1 l2 : list A) (acc : B)
    (body : A -> B -> M B) (w : World) :
  for_each (l1 ++ l2) acc body w =
  (let* acc' := for_each l1 acc body in for_each l2 acc' body) w.
Proof.
  revert acc w. induction l1 as [|a l1 IH]; intros acc w; simpl.
  - done.
  - unfold bind in *. destruct (body a acc w) as [[acc' w']| |]; [|done..].
    apply IH.
Qed.

Lemma filter_row_run (self : FillStrategy) (cand : Z -> Point) (l : list Z)
    (acc : list Point) (w : World) :
  for_each l acc (fun y_i points =>
      let '(x, y) := cand y_i in
      let* ok := call_predicate self x y in
      ret (if ok then points ++ [(x, y)] else points)) w
  = Ok (acc ++ emit_row (valid_predicate self) cand l,
        mkWorld (rand_pos w) (pred_calls w + length l)).
Proof.
  revert acc w. induction l as [|y_i l IH]; intros acc w; simpl.
  - rewrite app_nil_r, Nat.add_0_r. by destruct w.
  - destruct (cand y_i) as [x y] eqn:E. unfold bind at 1. unfold bind at 1.
    unfold call_predicate at 1. unfold ret at 1. rewrite IH. simpl.
    f_equal. f_equal.
    + destruct (valid_predicate self x y); simpl; by rewrite <- ?app_assoc.
    + f_equal. lia.
Qed.

Lemma filter_lattice_run (self : FillStrategy) (cand : Z -> Z -> Point)
    (lx ly : list Z) (acc : list Point) (w : World) :
  for_each lx acc (fun x_i points =>
    for_each ly points (fun y_i points =>
      let '(x, y) := cand x_i y_i in
      let* ok := call_predicate self x y in
      ret (if ok then points ++ [(x, y)] else points))) w
  = Ok (acc ++ flat_map (fun x_i => emit_row (valid_predicate self) (cand x_i) ly) lx,
        mkWorld (rand_pos w) (pred_calls w + length lx * length ly)).
Proof.
  revert acc w. induction lx as [|x_i lx IH]; intros acc w; simpl.
  - rewrite app_nil_r, Nat.add_0_r. by destruct w.
  - unfold bind. rewrite (filter_row_run self (cand x_i)). rewrite IH. simpl.
    f_equal. f_equal; [by rewrite app_assoc | f_equal; lia].
Qed.

(** ** GridFillStrategy and StarFillStrategy *)

Lemma py_truediv_ok (a b : R) (w : World) :
  b <> 0%R -> py_truediv a b w = Ok ((a / b)%R, w).
Proof. intros H. unfold py_truediv. by destruct (Req_dec_T b 0). Qed.

Lemma py_truediv_zero (a : R) (w : World) :
  py_truediv a 0 w = Raise ZeroDivisionError.
Proof. unfold py_truediv. by destruct (Req_dec_T 0 0). Qed.

Lemma grid_run (self : FillStrategy) (w : World) :
  centre_spacing self <> 0%R ->
  GridFillStrategy.generate_points self w =
  Ok (lattice (valid_predicate self) (GridFillStrategy.candidate self)
        (py_int (IZR ((x_range self).2 - (x_range self).1) / centre_spacing self) + 1)
        (py_int (IZR ((y_range self).2 - (y_range self).1) / centre_spacing self) + 1),
      mkWorld (rand_pos w)
        (pred_calls w
         + length (py_range (py_int (IZR ((x_range self).2 - (x_range self).1) / centre_spacing self) + 1))
           * length (py_range (py_int (IZR ((y_range self).2 - (y_range self).1) / centre_spacing self) + 1)))).
Proof.
  intros Hs. unfold GridFillStrategy.generate_points, bind.
  rewrite !py_truediv_ok by done.
  rewrite (filter_lattice_run self (GridFillStrategy.candidate self)). done.
Qed.

Lemma star_pitch_nonzero (s : R) : s <> 0%R -> (s / sqrt 2 <> 0)%R.
Proof.
  intros Hs. pose proof sqrt2_pos. unfold Rdiv.
  apply Rmult_integral_contrapositive_currified; [done|].
  apply Rinv_neq_0_compat. lra.
Qed.

Lemma star_run (self : FillStrategy) (w : World) :
  centre_spacing self <> 0%R ->
  let spacing := (centre_spacing self / sqrt 2)%R in
  StarFillStrategy.generate_points self w =
  Ok (lattice (valid_predicate self) (StarFillStrategy.candidate spacing self)
        (py_int (IZR ((x_range self).2 - (x_range self).1) / (2 * spacing)) + 1)
        (py_int (IZR ((y_range self).2 - (y_range self).1) / spacing) + 1),
      mkWorld (rand_pos w)
        (pred_calls w
         + length (py_range (py_int (IZR ((x_range self).2 - (x_range self).1) / (2 * spacing)) + 1))
           * length (py_range (py_int (IZR ((y_range self).2 - (y_range self).1) / spacing) + 1)))).
Proof.
  intros Hs spacing. unfold StarFillStrategy.generate_points, bind.
  pose proof sqrt2_pos. pose proof (star_pitch_nonzero _ Hs).
  rewrite (py_truediv_ok (centre_spacing self)) by lra.
  fold spacing. rewrite !py_truediv_ok by (subst spacing; lra).
  rewrite (filter_lattice_run self (StarFillStrategy.candidate spacing self)). done.
Qed.

Lemma lattice_ext (pred : Z -> Z -> bool) (c1 c2 : Z -> Z -> Point) (xs ys : Z) :
  (forall x_i y_i, 0 <= x_i < xs -> 0 <= y_i < ys -> c1 x_i y_i = c2 x_i y_i) ->
  lattice pred c1 xs ys = lattice pred c2 xs ys.
Proof.
  intros H. unfold lattice, emit_row.
  rewrite !flat_map_concat_map. f_equal. apply map_ext_in. intros x_i Hx.
  rewrite !flat_map_concat_map. f_equal. apply map_ext_in. intros y_i Hy.
  apply list_elem_of_In, py_range_elem in Hx. apply list_elem_of_In, py_range_elem in Hy.
  by rewrite H.
Qed.

Lemma lattice_empty_x (pred : Z -> Z -> bool) (c : Z -> Z -> Point) (xs ys : Z) :
  xs <= 0 -> lattice pred c xs ys = [].
Proof. intros H. unfold lattice. by rewrite (py_range_nonpos xs) by done. Qed.


Lemma emit_row_true (pred : Z -> Z -> bool) (cand : Z -> Point) (l : list Z) :
  (forall x y, pred x y = true) -> emit_row pred cand l = map cand l.
Proof.
  intros H. unfold emit_row. induction l as [|a l IH]; simpl; [done|].
  rewrite H. simpl. by rewrite IH.
Qed.

Lemma flat_map_blocks_length {A B : Type} (f : A -> list B) (l : list A) (n : nat) :
  (forall a, a ∈ l -> length (f a) = n) ->
  length (flat_map f l) = (length l * n)%nat.
Proof.
  induction l as [|a l IH]; intros H; simpl; [done|].
  rewrite length_app, H by apply list_elem_of_here. rewrite IH; [done|].
  intros b Hb. apply H. by apply list_elem_of_further.
Qed.

Lemma flat_map_blocks_lookup {A B : Type} (f : A -> list B) (l : list A)
    (n i j : nat) (a : A) (b : B) :
  (forall a, a ∈ l -> length (f a) = n) ->
  l !! i = Some a -> f a !! j = Some b ->
  flat_map f l !! (i * n + j)%nat = Some b.
Proof.
  revert i. induction l as [|a0 l IH]; intros i H Hi Hj; [done|].
  simpl. destruct i as [|i]; simpl in *.
  - injection Hi as ->. by apply lookup_app_l_Some.
  - rewrite lookup_app_r; rewrite H by apply list_elem_of_here; [|lia].
    replace (n + i * n + j - n)%nat with (i * n + j)%nat by lia.
    apply IH; [|done..]. intros a' Ha'. apply H. by apply list_elem_of_further.
Qed.

Lemma quotient_nonneg (d : Z) (s : R) : 0 <= d -> (0 < s)%R -> (0 <= IZR d / s)%R.
Proof.
  intros Hd Hs. apply IZR_le in Hd. unfold Rdiv.
  apply Rmult_le_pos; [done|]. left. by apply Rinv_0_lt_compat.
Qed.

(** *** The lattice strategies in an arithmetic [A] *)

Lemma exact_lawful : Lawful exact.
Proof.
  constructor; simpl.
  - intros a b. apply Rplus_comm.
  - intros n Hn. by apply IZR_le.
  - intros a b Ha Hb. unfold Rdiv. apply Rmult_le_pos; [done|].
    left. by apply Rinv_0_lt_compat.
  - apply sqrt2_pos.
  - done.
  - intros x b. rewrite mult_IZR. ring.
Qed.

Lemma py_truediv_in_ok (A : Arith) (a b : R) (w : World) :
  b <> 0%R -> py_truediv_in A a b w = Ok (fquot A a b, w).
Proof. intros H. unfold py_truediv_in. by destruct (Req_dec_T b 0). Qed.

Lemma py_truediv_in_zero (A : Arith) (a : R) (w : World) :
  py_truediv_in A a 0 w = Raise ZeroDivisionError.
Proof. unfold py_truediv_in. by destruct (Req_dec_T 0 0). Qed.

Lemma grid_run_in (A : Arith) (self : FillStrategy) (w : World) :
  centre_spacing self <> 0%R ->
  GridFillStrategy.generate_points_in A self w =
  Ok (lattice (valid_predicate self) (GridFillStrategy.candidate_in A self)
        (py_int (fquot A (of_int A ((x_range self).2 - (x_range self).1))
                         (centre_spacing self)) + 1)
        (py_int (fquot A (of_int A ((y_range self).2 - (y_range self).1))
                         (centre_spacing self)) + 1),
      mkWorld (rand_pos w)
        (pred_calls w
         + Z.to_nat (py_int (fquot A (of_int A ((x_range self).2 - (x_range self).1))
                                   (centre_spacing self)) + 1)
           * Z.to_nat (py_int (fquot A (of_int A ((y_range self).2 - (y_range self).1))
                                     (centre_spacing self)) + 1))).
Proof.
  intros Hs. unfold GridFillStrategy.generate_points_in, bind.
  rewrite !py_truediv_in_ok by done.
  rewrite (filter_lattice_run self (GridFillStrategy.candidate_in A self)).
  by rewrite !py_range_length.
Qed.

Lemma star_run_in (A : Arith) (self : FillStrategy) (w : World) :
  Lawful A -> star_pitch A self <> 0%R ->
  StarFillStrategy.generate_points_in A self w =
  Ok (lattice (valid_predicate self)
        (StarFillStrategy.candidate_in A (star_pitch A self) self)
        (py_int (fquot A (of_int A ((x_range self).2 - (x_range self).1))
                         (2 * star_pitch A self)) + 1)
        (py_int (fquot A (of_int A ((y_range self).2 - (y_range self).1))
                         (star_pitch A self)) + 1),
      mkWorld (rand_pos w)
        (pred_calls w
         + Z.to_nat (py_int (fquot A (of_int A ((x_range self).2 - (x_range self).1))
                                   (2 * star_pitch A self)) + 1)
           * Z.to_nat (py_int (fquot A (of_int A ((y_range self).2 - (y_range self).1))
                                     (star_pitch A self)) + 1))).
Proof.
  intros HA Hp. unfold StarFillStrategy.generate_points_in, bind.
  pose proof (fsqrt_two A HA) as H2.
  rewrite (py_truediv_in_ok A (centre_spacing self)) by lra.
  fold (star_pitch A self). rewrite (fmul_two A HA).
  rewrite !py_truediv_in_ok by lra.
  rewrite (filter_lattice_run self
             (StarFillStrategy.candidate_in A (star_pitch A self) self)).
  by rewrite !py_range_length.
Qed.

(** With exact arithmetic the second embedding is the first. *)
Lemma grid_in_exact (self : FillStrategy) (w : World) :
  GridFillStrategy.generate_points_in exact self w
  = GridFillStrategy.generate_points self w.
Proof. reflexivity. Qed.

Lemma for_each_ext {B C : Type} (l : list B) (acc : C) (f g : B -> C -> M C)
    (w : World) :
  (forall a c w0, f a c w0 = g a c w0) ->
  for_each l acc f w = for_each l acc g w.
Proof.
  intros H. revert acc w. induction l as [|a l IH]; intros acc w; [done|].
  cbn [for_each]. unfold bind. rewrite H.
  destruct (g a acc w) as [[c w0]| |]; [apply IH | done..].
Qed.

Lemma star_in_exact (self : FillStrategy) (w : World) :
  StarFillStrategy.generate_points_in exact self w
  = StarFillStrategy.generate_points self w.
Proof.
  unfold StarFillStrategy.generate_points_in, StarFillStrategy.generate_points.
  unfold bind. change (py_truediv_in exact) with py_truediv.
  cbn [of_int fsqrt fmul exact].
  destruct (py_truediv (centre_spacing self) (sqrt 2) w) as [[sp w1]| |]; [|done..].
  destruct (py_truediv (IZR ((x_range self).2 - (x_range self).1)) (2 * sp) w1)
    as [[qx w2]| |]; [|done..].
  destruct (py_truediv (IZR ((y_range self).2 - (y_range self).1)) sp w2)
    as [[qy w3]| |]; [|done..].
  apply for_each_ext. intros x_i points w0.
  apply for_each_ext. intros y_i points0 w4.
  unfold StarFillStrategy.candidate_in, StarFillStrategy.candidate.
  cbn [of_int fadd fmul exact]. by rewrite mult_IZR.
Qed.

Lemma floor_steps_in_int (A : Arith) (range : Z * Z) (pitch : R) :
  Lawful A -> range.1 <= range.2 -> (0 < pitch)%R ->
  py_int (fquot A (of_int A (range.2 - range.1)) pitch) + 1
  = floor_steps_in A range pitch
  /\ 1 <= floor_steps_in A range pitch.
Proof.
  intros HA Hr Hp. unfold floor_steps_in, py_floor.
  assert (0 <= fquot A (of_int A (range.2 - range.1)) pitch)%R as Hq.
  { apply (fquot_nonneg A HA); [|done]. apply (of_int_nonneg A HA). lia. }
  rewrite py_int_nonneg by done. split; [done|].
  pose proof (Zfloor_lub 0 _ Hq). lia.
Qed.

(** C5: with an always-true predicate, a positive spacing and max > min on
    both axes, the grid strategy returns exactly [x_steps * y_steps] points,
    where [x_steps = floor((x1-x0)/spacing) + 1] and [y_steps] likewise, and
    the point of lattice index [(x_i, y_i)], found at position
    [x_i * y_steps + y_i], is
    [(round(x0 + x_i*spacing), round(y0 + y_i*spacing))].  The quotients,
    products and sums are those of the floating-point arithmetic of the
    code, whatever their rounding. *)
Theorem grid_cardinality (A : Arith) (self : FillStrategy) (w : World) :
  Lawful A ->
  (0 < centre_spacing self)%R ->
  (forall x y, valid_predicate self x y = true) ->
  (x_range self).1 < (x_range self).2 ->
  (y_range self).1 < (y_range self).2 ->
  exists out w',
    GridFillStrategy.generate_points_in A self w = Ok (out, w') /\
    Z.of_nat (length out) =
      floor_steps_in A (x_range self) (centre_spacing self)
      * floor_steps_in A (y_range self) (centre_spacing self) /\
    forall x_i y_i,
      0 <= x_i < floor_steps_in A (x_range self) (centre_spacing self) ->
      0 <= y_i < floor_steps_in A (y_range self) (centre_spacing self) ->
      out !! Z.to_nat (x_i * floor_steps_in A (y_range self) (centre_spacing self)
                       + y_i)
      = Some (grid_spec_candidate_in A self x_i y_i).
Proof.
  intros HA Hs Hp Hx Hy.
  rewrite grid_run_in by lra.
  destruct (floor_steps_in_int A (x_range self) _ HA ltac:(lia) Hs) as [-> Hxs].
  destruct (floor_steps_in_int A (y_range self) _ HA ltac:(lia) Hs) as [-> Hys].
  set (xs := floor_steps_in A (x_range self) (centre_spacing self)) in *.
  set (ys := floor_steps_in A (y_range self) (centre_spacing self)) in *.
  eexists _, _. split; [done|].
  assert (Hblk : forall a : Z, a ∈ py_range xs ->
            length (emit_row (valid_predicate self)
                      (GridFillStrategy.candidate_in A self a) (py_range ys))
            = Z.to_nat ys).
  { intros a _. rewrite emit_row_true by done.
    by rewrite length_map, py_range_length. }
  split.
  - unfold lattice. rewrite (flat_map_blocks_length _ _ _ Hblk), py_range_length. lia.
  - intros x_i y_i Hxi Hyi. unfold lattice.
    replace (Z.to_nat (x_i * ys + y_i))
      with (Z.to_nat x_i * Z.to_nat ys + Z.to_nat y_i)%nat by lia.
    apply (flat_map_blocks_lookup _ _ _ _ _ x_i _ Hblk).
    + rewrite py_range_lookup by lia. f_equal. lia.
    + rewrite emit_row_true by done. rewrite list_lookup_fmap.
      rewrite py_range_lookup by lia. simpl. f_equal.
      rewrite Z2Nat.id by lia.
      unfold GridFillStrategy.candidate_in, grid_spec_candidate_in.
      by rewrite !(fadd_comm A HA (of_int A _)).
Qed.

(** C5, at the example of the specification in exact arithmetic: ranges
    (0,10) by (0,10) and spacing 5 give 3 by 3 points. *)
Lemma grid_cardinality_witness :
  exists out w',
    GridFillStrategy.generate_points_in exact square_example (mkWorld 0 0)
    = Ok (out, w') /\
    Z.of_nat (length out) =
      floor_steps_in exact (x_range square_example) (centre_spacing square_example)
      * floor_steps_in exact (y_range square_example) (centre_spacing square_example) /\
    forall x_i y_i,
      0 <= x_i < floor_steps_in exact (x_range square_example)
                   (centre_spacing square_example) ->
      0 <= y_i < floor_steps_in exact (y_range square_example)
                   (centre_spacing square_example) ->
      out !! Z.to_nat (x_i * floor_steps_in exact (y_range square_example)
                                (centre_spacing square_example) + y_i)
      = Some (grid_spec_candidate_in exact square_example x_i y_i).
Proof.
  apply (grid_cardinality exact square_example (mkWorld 0 0)).
  - apply exact_lawful.
  - simpl. lra.
  - reflexivity.
  - simpl. lia.
  - simpl. lia.
Defined.

(** The step count follows the quotient as the arithmetic rounds it: in any
    arithmetic in which [1 / spacing] evaluates to 10 (as [1 / 0.1] does on
    doubles, although the double 0.1 is above one tenth), the strategy with
    the ranges (0, 1) by (0, 1) enumerates 11 by 11 lattice indices. *)
Lemma grid_steps_follow_quotient (A : Arith) (spacing : R) (w : World) :
  spacing <> 0%R -> fquot A (of_int A 1) spacing = 10%R ->
  exists out w',
    GridFillStrategy.generate_points_in A
      (mkFillStrategy (0, 1) (0, 1) (fun _ _ => true) spacing) w = Ok (out, w')
    /\ length out = 121%nat.
Proof.
  intros Hs Hq. rewrite grid_run_in by done. eexists _, _. split; [done|].
  cbn [x_range y_range centre_spacing valid_predicate fst snd].
  change (1 - 0) with 1. rewrite Hq. change 10%R with (IZR 10).
  rewrite py_int_IZR. unfold lattice.
  rewrite (flat_map_blocks_length _ _ 11).
  - by rewrite py_range_length.
  - intros a _. rewrite emit_row_true by done.
    by rewrite length_map, py_range_length.
Qed.

(** Integer spacing: the quotient of the step count is Python's [//]. *)
Lemma py_int_quotient_Z (d s : Z) :
  0 <= d -> 0 < s -> py_int (IZR d / IZR s) = d / s.
Proof.
  intros Hd Hs.
  assert (0 < IZR s)%R as HsR by (by apply IZR_lt).
  apply py_int_eq_nonneg; [by apply quotient_nonneg|].
  pose proof (Z.mul_div_le d s Hs) as Hlo.
  pose proof (Z.mul_succ_div_gt d s Hs) as Hhi.
  apply IZR_le in Hlo. apply IZR_lt in Hhi.
  rewrite mult_IZR in Hlo. rewrite mult_IZR in Hhi.
  replace (Z.succ (d / s)) with (d / s + 1) in Hhi by lia.
  rewrite plus_IZR in Hhi.
  split.
  - apply Rmult_le_reg_r with (IZR s); [done|].
    unfold Rdiv. rewrite Rmult_assoc, Rinv_l by lra. lra.
  - apply Rmult_lt_reg_r with (IZR s); [done|].
    unfold Rdiv. rewrite Rmult_assoc, Rinv_l by lra. lra.
Qed.

Lemma grid_candidate_Z (self : FillStrategy) (s x_i y_i : Z) :
  centre_spacing self = IZR s ->
  GridFillStrategy.candidate self x_i y_i =
  (x_i * s + (x_range self).1, y_i * s + (y_range self).1).
Proof.
  intros E. unfold GridFillStrategy.candidate. rewrite E.
  rewrite <- !mult_IZR, <- !plus_IZR, !py_round_IZR. done.
Qed.

(** With an integer spacing the whole run of the grid strategy is integer
    arithmetic. *)
Lemma grid_run_Z (self : FillStrategy) (s : Z) (w : World) :
  centre_spacing self = IZR s -> 0 < s ->
  (x_range self).1 <= (x_range self).2 ->
  (y_range self).1 <= (y_range self).2 ->
  outcome (GridFillStrategy.generate_points self w) =
  Ok (lattice (valid_predicate self)
        (fun x_i y_i => (x_i * s + (x_range self).1, y_i * s + (y_range self).1))
        (((x_range self).2 - (x_range self).1) / s + 1)
        (((y_range self).2 - (y_range self).1) / s + 1)).
Proof.
  intros E Hs Hx Hy.
  assert (0 < IZR s)%R as HsR by (by apply IZR_lt).
  rewrite grid_run by (rewrite E; lra). simpl. rewrite E.
  rewrite !py_int_quotient_Z by lia. f_equal.
  apply lattice_ext. intros x_i y_i _ _. by apply grid_candidate_Z.
Qed.

(** The example of section 8 of the specification: 9 points. *)
Example grid_example_points :
  outcome (GridFillStrategy.generate_points square_example (mkWorld 0 0)) =
  Ok [(0, 0); (0, 5); (0, 10); (5, 0); (5, 5); (5, 10); (10, 0); (10, 5); (10, 10)].
Proof. rewrite (grid_run_Z square_example 5); [reflexivity | done | lia | simpl; lia..]. Qed.

(** ** C9: Grid and Star are deterministic *)

(** With spacing 0 both constructors succeed and [generate_points] raises at
    its first division. *)
Lemma grid_zero_spacing (self : FillStrategy) (w : World) :
  centre_spacing self = 0%R ->
  GridFillStrategy.generate_points self w = Raise ZeroDivisionError.
Proof.
  intros E. unfold GridFillStrategy.generate_points, bind.
  rewrite E. by rewrite py_truediv_zero.
Qed.

Lemma star_zero_spacing (self : FillStrategy) (w : World) :
  centre_spacing self = 0%R ->
  StarFillStrategy.generate_points self w = Raise ZeroDivisionError.
Proof.
  intros E. unfold StarFillStrategy.generate_points, bind.
  pose proof sqrt2_pos.
  rewrite (py_truediv_ok (centre_spacing self)) by lra.
  rewrite E. replace (2 * (0 / sqrt 2))%R with 0%R by (unfold Rdiv; lra).
  by rewrite py_truediv_zero.
Qed.

(** C9: the outcome of [generate_points] of the grid and of the star strategy
    is the same in any two worlds (whatever the cursor of the random module
    is), and the call leaves the cursor where it was. *)
Theorem grid_star_deterministic (self : FillStrategy) (w1 w2 : World) :
  outcome (GridFillStrategy.generate_points self w1)
  = outcome (GridFillStrategy.generate_points self w2)
  /\ outcome (StarFillStrategy.generate_points self w1)
     = outcome (StarFillStrategy.generate_points self w2)
  /\ match GridFillStrategy.generate_points self w1 with
     | Ok (_, w') => rand_pos w' = rand_pos w1
     | _ => True
     end
  /\ match StarFillStrategy.generate_points self w1 with
     | Ok (_, w') => rand_pos w' = rand_pos w1
     | _ => True
     end.
Proof.
  destruct (Req_dec_T (centre_spacing self) 0) as [E|E].
  - by rewrite !grid_zero_spacing, !star_zero_spacing.
  - rewrite !grid_run by done.
    pose proof (star_run self w1 E) as ->. pose proof (star_run self w2 E) as ->.
    done.
Qed.

(** ** C6: the star lattice *)

Lemma star_candidate_in_spec (A : Arith) (self : FillStrategy) (x_i y_i : Z) :
  Lawful A ->
  StarFillStrategy.candidate_in A (star_pitch A self) self x_i y_i
  = star_spec_candidate_in A self x_i y_i.
Proof.
  intros HA. unfold StarFillStrategy.candidate_in, star_spec_candidate_in.
  cbv zeta. rewrite Zmod_odd, (fmul_shift A HA).
  rewrite (fadd_comm A HA (of_int A (x_range self).1)).
  rewrite (fadd_comm A HA (of_int A (y_range self).1)).
  by destruct (Z.odd y_i).
Qed.

(** C6, as amended: for a positive row pitch [s = spacing/sqrt(2)] and ranges
    with [max >= min], the star strategy returns, x-major, the candidates
    [x = round(x0 + x_i*2s + (s if y_i is odd else 0))], [y = round(y0 + y_i*s)]
    of the [floor((x1-x0)/(2s)) + 1] by [floor((y1-y0)/s) + 1] lattice indices
    that pass the predicate.  The quotients, products and sums are those of
    the floating-point arithmetic of the code, whatever their rounding. *)
Theorem star_lattice (A : Arith) (self : FillStrategy) (w : World) :
  Lawful A ->
  (0 < star_pitch A self)%R ->
  (x_range self).1 <= (x_range self).2 ->
  (y_range self).1 <= (y_range self).2 ->
  outcome (StarFillStrategy.generate_points_in A self w) = Ok (star_spec_in A self).
Proof.
  intros HA Hp Hx Hy.
  rewrite star_run_in by (done || lra). cbn [outcome].
  destruct (floor_steps_in_int A (x_range self) (2 * star_pitch A self) HA Hx
              ltac:(lra)) as [-> _].
  destruct (floor_steps_in_int A (y_range self) (star_pitch A self) HA Hy Hp)
    as [-> _].
  unfold star_spec_in. cbv zeta. f_equal. apply lattice_ext. intros x_i y_i _ _.
  by apply star_candidate_in_spec.
Qed.

Lemma star_lattice_witness :
  outcome (StarFillStrategy.generate_points_in exact square_example (mkWorld 0 0))
  = Ok (star_spec_in exact square_example).
Proof.
  apply (star_lattice exact square_example (mkWorld 0 0)).
  - apply exact_lawful.
  - unfold star_pitch. simpl. pose proof sqrt2_pos. unfold Rdiv.
    apply Rmult_lt_0_compat; [lra|]. by apply Rinv_0_lt_compat.
  - simpl. lia.
  - simpl. lia.
Defined.

(** With exact arithmetic the lattice of the specification in [A] is the one
    used below. *)
Lemma star_spec_in_exact (self : FillStrategy) : star_spec_in exact self = star_spec self.
Proof. reflexivity. Qed.

(** C6 as stated fails on an inverted range: for the x range (0, -1), y range
    (0, 0) and spacing 2, the code truncates (-1)/(2s) to 0, enumerates one
    column and returns the point (0, 0), where the floor of the specification gives
    no column and hence no point. *)
Lemma star_floor_counterexample :
  outcome (StarFillStrategy.generate_points star_inverted (mkWorld 0 0))
  = Ok [(0, 0)]
  /\ star_spec star_inverted = []
  /\ outcome (StarFillStrategy.generate_points star_inverted (mkWorld 0 0))
     <> Ok (star_spec star_inverted).
Proof.
  pose proof sqrt2_bounds as [Hlo Hhi]. pose proof sqrt2_pos as H2.
  assert (2 / sqrt 2 = sqrt 2)%R as Hs.
  { apply Rmult_eq_reg_r with (sqrt 2); [|lra].
    unfold Rdiv. rewrite Rmult_assoc, Rinv_l by lra. rewrite sqrt2_sqr. lra. }
  assert (-1 < IZR (-1) / (2 * sqrt 2) < 0)%R as Hq.
  { split.
    - apply Rmult_lt_reg_r with (2 * sqrt 2)%R; [lra|].
      unfold Rdiv. rewrite Rmult_assoc, Rinv_l by lra. lra.
    - apply Rmult_lt_reg_r with (2 * sqrt 2)%R; [lra|].
      unfold Rdiv. rewrite Rmult_assoc, Rinv_l by lra. lra. }
  assert (Hcode : outcome (StarFillStrategy.generate_points star_inverted (mkWorld 0 0))
                  = Ok [(0, 0)]).
  { pose proof (star_run star_inverted (mkWorld 0 0)) as ->; [|simpl; lra].
    simpl centre_spacing. rewrite Hs.
    change (IZR ((x_range star_inverted).2 - (x_range star_inverted).1))
      with (IZR (-1)).
    change (IZR ((y_range star_inverted).2 - (y_range star_inverted).1))
      with (IZR 0).
    rewrite (py_int_small_neg (IZR (-1) / (2 * sqrt 2))) by lra.
    replace (IZR 0 / sqrt 2)%R with (IZR 0) by (unfold Rdiv; lra).
    rewrite py_int_IZR. unfold outcome. f_equal.
    unfold lattice, emit_row. simpl.
    unfold StarFillStrategy.candidate. simpl. change (Z.of_nat 0) with 0.
    replace (0 * 2 * sqrt 2 + 0 + 0)%R with (IZR 0) by lra.
    replace (0 * sqrt 2 + 0)%R with (IZR 0) by lra.
    by rewrite py_round_IZR. }
  assert (Hspec : star_spec star_inverted = []).
  { unfold star_spec. apply lattice_empty_x. unfold floor_steps.
    simpl centre_spacing. rewrite Hs.
    change (IZR ((x_range star_inverted).2 - (x_range star_inverted).1))
      with (IZR (-1)).
    rewrite (py_floor_eq (-1)); [lia|]. lra. }
  split; [done|]. split; [done|]. rewrite Hcode, Hspec. discriminate.
Qed.

(** ** BridsonFillStrategy: grids *)

Import BridsonFillStrategy.

Lemma cell_upd_eq {A : Type} (grid : list (list A)) (i j : nat) (v a : A) :
  cell grid i j = Some a -> cell (upd grid i j v) i j = Some v.
Proof.
  unfold cell, upd. intros H.
  destruct (grid !! i) as [row|] eqn:E; [|done].
  rewrite list_lookup_alter_eq, E. simpl.
  apply list_lookup_insert_eq. by eapply lookup_lt_Some.
Qed.

Lemma cell_upd_ne {A : Type} (grid : list (list A)) (i j i' j' : nat) (v : A) :
  (i, j) <> (i', j') -> cell (upd grid i j v) i' j' = cell grid i' j'.
Proof.
  unfold cell, upd. intros H.
  destruct (decide (i = i')) as [->|Hi].
  - rewrite list_lookup_alter_eq. destruct (grid !! i') as [row|]; [|done]. simpl.
    apply list_lookup_insert_ne. congruence.
  - by rewrite list_lookup_alter_ne.
Qed.

Lemma cell_upd_Some {A : Type} (grid : list (list A)) (i j i' j' : nat) (v a : A) :
  cell (upd grid i j v) i' j' = Some a ->
  ((i, j) = (i', j') /\ a = v) \/ ((i, j) <> (i', j') /\ cell grid i' j' = Some a).
Proof.
  intros H. destruct (decide ((i, j) = (i', j'))) as [E|E].
  - left. split; [done|]. injection E as <- <-.
    unfold cell, upd in H. rewrite list_lookup_alter_eq in H.
    destruct (grid !! i) as [row|]; [|done]. simpl in H.
    apply list_lookup_insert_Some in H as [(_ & -> & _)|(? & _)]; done.
  - right. split; [done|]. by rewrite cell_upd_ne in H.
Qed.

Lemma cell_upd_keeps {A : Type} (grid : list (list A)) (i j i' j' : nat) (v : A) :
  cell grid i' j' = Some v -> cell (upd grid i j v) i' j' = Some v.
Proof.
  intros H. destruct (decide ((i, j) = (i', j'))) as [E|E].
  - injection E as <- <-. by eapply cell_upd_eq.
  - by rewrite cell_upd_ne.
Qed.

Lemma dims_upd {A : Type} (grid : list (list A)) (ys xs : Z) (i j : nat) (v : A) :
  dims grid ys xs -> dims (upd grid i j v) ys xs.
Proof.
  intros [Hl Hr]. unfold upd. split.
  - by rewrite length_alter.
  - apply Forall_alter; [done|]. intros row _ Hlen. by rewrite length_insert.
Qed.

Lemma dims_cell {A : Type} (grid : list (list A)) (ys xs : Z) (i j : Z) :
  dims grid ys xs -> 0 <= i < ys -> 0 <= j < xs ->
  exists a, cell grid (Z.to_nat i) (Z.to_nat j) = Some a.
Proof.
  intros [Hl Hr] Hi Hj. unfold cell.
  destruct (lookup_lt_is_Some_2 grid (Z.to_nat i)) as [row Hrow]; [lia|].
  rewrite Hrow. rewrite Forall_lookup in Hr. specialize (Hr _ _ Hrow).
  apply lookup_lt_is_Some_2. lia.
Qed.

Lemma cell_in_dims {A : Type} (grid : list (list A)) (ys xs : Z) (i j : nat) (a : A) :
  dims grid ys xs -> cell grid i j = Some a ->
  (i < Z.to_nat ys)%nat /\ (j < Z.to_nat xs)%nat.
Proof.
  intros [Hl Hr] H. unfold cell in H.
  destruct (grid !! i) as [row|] eqn:E; [|done].
  rewrite Forall_lookup in Hr. specialize (Hr _ _ E).
  apply lookup_lt_Some in E. apply lookup_lt_Some in H. lia.
Qed.

Lemma py_getitem_ok {A : Type} (l : list A) (i : Z) (a : A) (w : World) :
  0 <= i -> l !! Z.to_nat i = Some a -> py_getitem l i w = Ok (a, w).
Proof.
  intros Hi H. unfold py_getitem.
  rewrite py_index_in_range; [by rewrite H|].
  apply lookup_lt_Some in H. lia.
Qed.

Lemma py_setitem_ok {A : Type} (l : list A) (i : Z) (v : A) (w : World) :
  0 <= i < Z.of_nat (length l) ->
  py_setitem l i v w = Ok (<[Z.to_nat i := v]> l, w).
Proof. intros Hi. unfold py_setitem. by rewrite py_index_in_range. Qed.

Lemma get2d_ok {A : Type} (grid : list (list A)) (i j : Z) (a : A) (w : World) :
  0 <= i -> 0 <= j -> cell grid (Z.to_nat i) (Z.to_nat j) = Some a ->
  get2d grid i j w = Ok (a, w).
Proof.
  intros Hi Hj H. unfold cell in H. unfold get2d, bind.
  destruct (grid !! Z.to_nat i) as [row|] eqn:E; [|done].
  rewrite (py_getitem_ok grid i row) by done. by apply py_getitem_ok.
Qed.

Lemma set2d_ok {A : Type} (grid : list (list A)) (i j : Z) (v a : A) (w : World) :
  0 <= i -> 0 <= j -> cell grid (Z.to_nat i) (Z.to_nat j) = Some a ->
  set2d grid i j v w = Ok (upd grid (Z.to_nat i) (Z.to_nat j) v, w).
Proof.
  intros Hi Hj H. unfold cell in H. unfold set2d, bind.
  destruct (grid !! Z.to_nat i) as [row|] eqn:E; [|done].
  rewrite (py_getitem_ok grid i row) by done.
  pose proof (lookup_lt_Some _ _ _ H). pose proof (lookup_lt_Some _ _ _ E).
  rewrite py_setitem_ok by lia. rewrite py_setitem_ok by lia.
  f_equal. f_equal. unfold upd.
  apply list_eq. intros n. destruct (decide (n = Z.to_nat i)) as [->|Hn].
  - rewrite list_lookup_insert_eq by done. by rewrite list_lookup_alter_eq, E.
  - rewrite list_lookup_insert_ne by done. by rewrite list_lookup_alter_ne.
Qed.

(** *** Occupied cells *)

Lemma collect_rows (grid : list (list (option Point))) :
  collect grid = flat_map row_points grid.
Proof. reflexivity. Qed.

Lemma row_points_insert (row : list (option Point)) (j : nat) (p : Point) :
  row !! j = Some None ->
  row_points (<[j := Some p]> row) ≡ₚ p :: row_points row.
Proof.
  revert j. induction row as [|c row IH]; intros j H; [done|].
  destruct j as [|j]; simpl in *.
  - by injection H as ->.
  - unfold row_points in *. simpl. rewrite (IH j H).
    destruct c as [q|]; simpl; [apply Permutation_swap | done].
Qed.

Lemma collect_upd (grid : list (list (option Point))) (i j : nat) (p : Point) :
  cell grid i j = Some None ->
  collect (upd grid i j (Some p)) ≡ₚ p :: collect grid.
Proof.
  rewrite !collect_rows. unfold cell, upd.
  revert i. induction grid as [|row grid IH]; intros i H; [done|].
  destruct i as [|i]; simpl in *.
  - by rewrite (row_points_insert row j p H).
  - rewrite (IH i H). by rewrite Permutation_middle.
Qed.

Lemma elem_of_row_points (row : list (option Point)) (p : Point) :
  p ∈ row_points row <-> exists j, row !! j = Some (Some p).
Proof.
  unfold row_points. rewrite list_elem_of_In, in_flat_map. split.
  - intros (c & Hc & Hp). apply list_elem_of_In, list_elem_of_lookup in Hc as [j Hj].
    exists j. destruct c as [q|]; simpl in Hp; [|done].
    destruct Hp as [->|[]]. done.
  - intros (j & Hj). exists (Some p). split; [|by left].
    apply list_elem_of_In. by eapply list_elem_of_lookup_2.
Qed.

Lemma elem_of_collect (grid : list (list (option Point))) (p : Point) :
  p ∈ collect grid <-> exists i j, cell grid i j = Some (Some p).
Proof.
  rewrite collect_rows. rewrite list_elem_of_In, in_flat_map. split.
  - intros (row & Hrow & Hp).
    apply list_elem_of_In, list_elem_of_lookup in Hrow as [i Hi].
    apply list_elem_of_In, elem_of_row_points in Hp as [j Hj].
    exists i, j. unfold cell. by rewrite Hi.
  - intros (i & j & H). unfold cell in H.
    destruct (grid !! i) as [row|] eqn:E; [|done].
    exists row. split.
    + apply list_elem_of_In. by eapply list_elem_of_lookup_2.
    + apply list_elem_of_In, elem_of_row_points. by exists j.
Qed.

Lemma row_points_length (row : list (option Point)) :
  (length (row_points row) <= length row)%nat.
Proof.
  unfold row_points. induction row as [|c row IH]; simpl; [done|].
  rewrite length_app. destruct c; simpl; lia.
Qed.

Lemma collect_length (grid : list (list (option Point))) (ys xs : Z) :
  dims grid ys xs -> (length (collect grid) <= Z.to_nat ys * Z.to_nat xs)%nat.
Proof.
  rewrite collect_rows. intros [Hl Hr]. rewrite <- Hl. clear Hl.
  induction Hr as [|row grid Hrow Hr IH]; simpl; [done|].
  rewrite length_app. pose proof (row_points_length row). lia.
Qed.

Lemma occupied_le_cells (self : t) : Inv self -> (occupied self <= cells self)%nat.
Proof. intros H. apply collect_length, H. Qed.

Lemma row_points_scan (row : list (option Point)) (n : nat) :
  length row = n ->
  row_points row =
  flat_map (fun j => match row !! j with Some (Some p) => [p] | _ => [] end)
           (seq 0 n).
Proof.
  revert n. induction row as [|c row IH]; intros n Hn.
  - simpl in Hn. by subst n.
  - simpl in Hn. subst n. rewrite <- cons_seq. simpl.
    unfold row_points in *. simpl. f_equal.
    rewrite (IH (length row) eq_refl). rewrite <- fmap_S_seq.
    rewrite !flat_map_concat_map. f_equal.
    change (S <$> seq 0 (length row)) with (map S (seq 0 (length row))).
    by rewrite map_map.
Qed.

Lemma collect_scan (self : t) :
  dims (_points self) (_y_steps self) (_x_steps self) ->
  collect (_points self) = scan self.
Proof.
  intros [Hl Hr]. unfold scan, py_range. rewrite collect_rows.
  rewrite <- Hl. clear Hl.
  assert (forall (grid : list (list (option Point))) (o : nat),
    Forall (fun row => length row = Z.to_nat (_x_steps self)) grid ->
    flat_map row_points grid =
    flat_map (fun i =>
      flat_map (fun j =>
        match cell grid (Z.to_nat i - o) (Z.to_nat j) with
        | Some (Some p) => [p] | _ => [] end)
        (map Z.of_nat (seq 0 (Z.to_nat (_x_steps self)))))
      (map Z.of_nat (seq o (length grid)))) as Hgen.
  { intros grid. induction grid as [|row grid IH]; intros o Hf; [done|].
    apply Forall_cons in Hf as [Hrow Hf]. simpl. f_equal.
    - rewrite (row_points_scan row _ Hrow).
      rewrite !flat_map_concat_map, map_map. f_equal. apply map_ext. intros j.
      unfold cell. replace (Z.to_nat (Z.of_nat o) - o)%nat with 0%nat by lia.
      simpl. by rewrite Nat2Z.id.
    - rewrite (IH (S o) Hf). rewrite !flat_map_concat_map. f_equal.
      apply map_ext_in. intros i Hi. apply in_map_iff in Hi as (n & <- & Hn).
      apply in_seq in Hn. apply flat_map_ext. intros j.
      unfold cell. rewrite Nat2Z.id.
      replace (n - o)%nat with (S (n - S o)) by lia. done. }
  rewrite (Hgen _ 0%nat Hr). rewrite !flat_map_concat_map. f_equal.
  apply map_ext. intros i. by rewrite Nat.sub_0_r.
Qed.

(** ** BridsonFillStrategy: the validity test *)

Lemma out_of_grid_false (self : t) (x_i y_i : Z) :
  out_of_grid self x_i y_i = false <-> in_grid self x_i y_i.
Proof. unfold out_of_grid, in_grid. rewrite !orb_false_iff. lia. Qed.

Lemma out_of_grid_true (self : t) (x_i y_i : Z) :
  out_of_grid self x_i y_i = true <-> ~ in_grid self x_i y_i.
Proof.
  rewrite <- out_of_grid_false. by destruct (out_of_grid self x_i y_i).
Qed.

Lemma cell_index_ok (self : t) (p : Point) (w : World) :
  _cell_size self <> 0%R -> _cell_index self p w = Ok (true_cell self p, w).
Proof.
  intros H. unfold _cell_index, bind. by rewrite !py_truediv_ok by done.
Qed.

Lemma in_grid_cell {A : Type} (self : t) (grid : list (list A)) (x_i y_i : Z) :
  dims grid (_y_steps self) (_x_steps self) -> in_grid self x_i y_i ->
  exists a, cell grid (Z.to_nat y_i) (Z.to_nat x_i) = Some a.
Proof. intros Hd [Hx Hy]. by eapply dims_cell. Qed.

Lemma neighbours_clear_spec (self : t) (p : Point) (x_i y_i : Z)
    (offsets : list (Z * Z)) (w : World) :
  dims (_points self) (_y_steps self) (_x_steps self) ->
  exists b, neighbours_clear self p x_i y_i offsets w = Ok (b, w) /\
    (b = true -> forall ox oy n,
       (ox, oy) ∈ offsets -> in_grid self (x_i + ox) (y_i + oy) ->
       cell (_points self) (Z.to_nat (y_i + oy)) (Z.to_nat (x_i + ox)) = Some (Some n) ->
       ~ (distance n p < centre_spacing (base self))%R).
Proof.
  intros Hd. induction offsets as [|[ox_i oy_i] rest IH]; simpl.
  - exists true. split; [done|]. intros _ ox oy n H. by apply elem_of_nil in H.
  - destruct IH as (b & Hrun & Hb).
    assert (Hrest : forall ox oy n,
      b = true -> (ox, oy) ∈ (ox_i, oy_i) :: rest ->
      (ox, oy) <> (ox_i, oy_i) \/ ~ in_grid self (x_i + ox) (y_i + oy)
        \/ (forall n, cell (_points self) (Z.to_nat (y_i + oy)) (Z.to_nat (x_i + ox)) = Some (Some n) ->
              ~ (distance n p < centre_spacing (base self))%R) ->
      in_grid self (x_i + ox) (y_i + oy) ->
      cell (_points self) (Z.to_nat (y_i + oy)) (Z.to_nat (x_i + ox)) = Some (Some n) ->
      ~ (distance n p < centre_spacing (base self))%R).
    { intros ox oy n Hbt Hin Hcase Hg Hc.
      apply elem_of_cons in Hin as [Heq|Hin]; [|by eapply Hb].
      destruct Hcase as [Hne|[Hng|Hfar]]; [done | done | by apply Hfar]. }
    destruct (out_of_grid self (x_i + ox_i) (y_i + oy_i)) eqn:Eg.
    + exists b. split; [done|]. intros Hbt ox oy n Hin. apply Hrest; [done..|].
      destruct (decide ((ox, oy) = (ox_i, oy_i))) as [[= -> ->]|Hne]; [|by left].
      right. left. by apply out_of_grid_true.
    + apply out_of_grid_false in Eg.
      destruct (in_grid_cell self (_points self) _ _ Hd Eg) as [c Hc].
      unfold bind. rewrite (get2d_ok _ _ _ c) by (done || (destruct Eg; lia)).
      destruct c as [n0|].
      * destruct (Rlt_dec (distance n0 p) (centre_spacing (base self))) as [Hlt|Hge].
        -- exists false. split; done.
        -- exists b. split; [done|]. intros Hbt ox oy n Hin. apply Hrest; [done..|].
           destruct (decide ((ox, oy) = (ox_i, oy_i))) as [[= -> ->]|Hne]; [|by left].
           right. right. intros n' Hn'. rewrite Hc in Hn'. by injection Hn' as <-.
      * exists b. split; [done|]. intros Hbt ox oy n Hin. apply Hrest; [done..|].
        destruct (decide ((ox, oy) = (ox_i, oy_i))) as [[= -> ->]|Hne]; [|by left].
        right. right. intros n' Hn'. by rewrite Hc in Hn'.
Qed.

Lemma is_valid_spec (self : t) (p : Point) (w : World) :
  Inv self ->
  exists b w', _is_valid self p w = Ok (b, w') /\
    rand_pos w' = rand_pos w /\
    (pred_calls w <= pred_calls w' <= S (pred_calls w))%nat /\
    (b = true -> accepts self p).
Proof.
  intros HI. unfold _is_valid, bind.
  rewrite cell_index_ok by apply HI.
  destruct (true_cell self p) as [x_i y_i] eqn:Et.
  destruct (out_of_grid self x_i y_i) eqn:Eg.
  { exists false, w. split; [done|]. split; [done|]. split; [lia|done]. }
  apply out_of_grid_false in Eg.
  destruct (in_grid_cell self (_points self) _ _ (inv_points _ HI) Eg) as [c Hc].
  rewrite (get2d_ok _ _ _ c) by (done || (destruct Eg; lia)).
  destruct c as [q|].
  { exists false, w. split; [done|]. split; [done|]. split; [lia|done]. }
  destruct (neighbours_clear_spec self p x_i y_i OFFSETS w (inv_points _ HI))
    as (b & -> & Hb).
  destruct b.
  - unfold call_predicate. eexists _, _. split; [done|]. simpl.
    split; [done|]. split; [lia|]. intros Hp.
    constructor; rewrite ?Et; simpl; try done. by apply Hb.
  - exists false, w. split; [done|]. split; [done|]. split; [lia|done].
Qed.

(** ** BridsonFillStrategy: the assignments *)

Lemma step_params (rnd : nat -> R) (self self' : t) :
  step rnd self self' -> params self' = params self.
Proof. by destruct 1. Qed.

Lemma step_Inv (rnd : nat -> R) (self self' : t) :
  step rnd self self' -> Inv self -> Inv self'.
Proof.
  intros Hs HI.
  destruct Hs as [self i j Hg | self i j n m p Hg He Hp Ha | self p Ha];
    constructor; simpl; try apply HI; try (apply dims_upd, HI).
  - intros i' j' Hc. apply cell_upd_Some in Hc as [[_ ?]|[_ Hc]]; [done|].
    by apply HI.
  - intros i' j' Hc. apply cell_upd_Some in Hc as [[_ ?]|[Hne Hc]]; [done|].
    rewrite cell_upd_ne by done. by apply HI.
  - intros i' j' Hc. apply cell_upd_Some in Hc as [[_ ?]|[Hne Hc]]; [done|].
    rewrite cell_upd_ne by done. by apply HI.
Qed.

Lemma step_checked (rnd : nat -> R) (self self' : t) (i j : nat) :
  step rnd self self' ->
  cell (_checked self) i j = Some true -> cell (_checked self') i j = Some true.
Proof. intros Hs Hc. destruct Hs; simpl; by apply cell_upd_keeps. Qed.

Lemma rtc_params (rnd : nat -> R) (self self' : t) :
  rtc (step rnd) self self' -> params self' = params self.
Proof.
  induction 1 as [|x y z Hxy _ IH]; [done|].
  rewrite IH. by eapply step_params.
Qed.

Lemma rtc_Inv (rnd : nat -> R) (self self' : t) :
  rtc (step rnd) self self' -> Inv self -> Inv self'.
Proof.
  induction 1 as [|x y z Hxy _ IH]; [done|].
  intros HI. apply IH. by eapply step_Inv.
Qed.

Lemma rtc_checked (rnd : nat -> R) (self self' : t) (i j : nat) :
  rtc (step rnd) self self' ->
  cell (_checked self) i j = Some true -> cell (_checked self') i j = Some true.
Proof.
  induction 1 as [|x y z Hxy _ IH]; [done|].
  intros H. apply IH. by eapply step_checked.
Qed.

Lemma params_fields (self self' : t) :
  params self' = params self ->
  base self' = base self /\ k self' = k self /\ _cell_size self' = _cell_size self
  /\ _x_steps self' = _x_steps self /\ _y_steps self' = _y_steps self.
Proof. unfold params. intros [= -> -> -> -> ->]. done. Qed.

Lemma params_cells (self self' : t) :
  params self' = params self -> cells self' = cells self.
Proof.
  intros H. apply params_fields in H as (_ & _ & _ & Hx & Hy).
  unfold cells. by rewrite Hx, Hy.
Qed.

Lemma occupied_store (self : t) (i j : nat) (p : Point) (c : list (list bool)) :
  cell (_points self) i j = Some None ->
  occupied (set_checked (set_points self (upd (_points self) i j (Some p))) c)
  = S (occupied self).
Proof.
  intros H. unfold occupied. simpl. by rewrite (collect_upd _ _ _ p H).
Qed.

(** ** BridsonFillStrategy: the loops *)

Lemma advances_refl (rnd : nat -> R) (self : t) (w : World) (budget : nat) :
  Inv self -> advances rnd self w self w budget.
Proof. intros HI. split; [done|]. split; [done|]. lia. Qed.

Lemma advances_trans (rnd : nat -> R) (s1 s2 s3 : t) (w1 w2 w3 : World)
    (b1 b2 : nat) :
  advances rnd s1 w1 s2 w2 b1 -> advances rnd s2 w2 s3 w3 b2 ->
  advances rnd s1 w1 s3 w3 (b1 + b2).
Proof.
  intros (Hr1 & HI1 & Hc1) (Hr2 & HI2 & Hc2).
  split; [by etrans|]. split; [done|].
  apply rtc_params, params_fields in Hr1 as (_ & Hk & _). rewrite Hk in Hc2. lia.
Qed.

Lemma random_point_run (rnd : nat -> R) (self : t) (i j : Z) (w : World) :
  _generate_random_point_in_cell rnd self i j w =
  Ok (seed_point self i j (rnd (rand_pos w)) (rnd (S (rand_pos w))),
      mkWorld (S (S (rand_pos w))) (pred_calls w)).
Proof. reflexivity. Qed.

Lemma seed_cell_spec (rnd : nat -> R) (n : nat) (self : t) (active : list Point)
    (i j : Z) (w : World) :
  Inv self -> in_grid self j i ->
  cell (_points self) (Z.to_nat i) (Z.to_nat j) = Some None ->
  exists self' active' w',
    seed_cell rnd n self active i j w = Ok ((self', active'), w') /\
    (pred_calls w' <= pred_calls w + n)%nat /\
    ((self' = self /\ active' = active) \/
     (exists a b p,
        p = seed_point self i j (rnd a) (rnd b) /\ accepts self p /\
        self' = set_points self
                  (upd (_points self) (Z.to_nat i) (Z.to_nat j) (Some p)) /\
        active' = p :: active)).
Proof.
  intros HI Hg Hc. revert w. induction n as [|n IH]; intros w; simpl.
  - exists self, active, w. split; [done|]. split; [lia|]. by left.
  - unfold bind at 1. rewrite random_point_run.
    set (p := seed_point self i j _ _). set (w1 := mkWorld _ _).
    destruct (is_valid_spec self p w1 HI) as (b & w2 & Hv & _ & Hcalls & Hacc).
    unfold bind at 1. rewrite Hv. destruct b.
    + unfold bind. rewrite (set2d_ok _ _ _ _ None) by (done || (destruct Hg; lia)).
      eexists _, _, _. split; [done|]. split; [simpl in *; lia|].
      right. exists (rand_pos w), (S (rand_pos w)), p. split; [done|]. by split; [apply Hacc|].
    + destruct (IH w2) as (self' & active' & w' & Hrun & Hcalls' & Hres).
      exists self', active', w'. split; [done|]. split; [simpl in *; lia|]. done.
Qed.

Lemma place_offspring_spec (rnd : nat -> R) (p : Point) (self : t)
    (active : list Point) (w : World) :
  Inv self ->
  exists self' active' w',
    place_offspring p (self, active) w = Ok ((self', active'), w') /\
    rtc (step rnd) self self' /\ Inv self' /\
    (pred_calls w' <= S (pred_calls w))%nat /\
    exists m, occupied self' = (occupied self + m)%nat
              /\ length active' = (length active + m)%nat.
Proof.
  intros HI. unfold place_offspring.
  destruct (is_valid_spec self p w HI) as (b & w' & Hv & _ & Hcalls & Hacc).
  unfold bind at 1. rewrite Hv. destruct b.
  - specialize (Hacc eq_refl). unfold bind.
    rewrite cell_index_ok by apply HI.
    destruct (true_cell self p) as [x_i y_i] eqn:Et.
    pose proof (acc_in_grid _ _ Hacc) as Hg. pose proof (acc_empty _ _ Hacc) as He.
    rewrite Et in Hg, He. simpl in Hg, He.
    rewrite (set2d_ok _ _ _ _ None) by (done || (destruct Hg; lia)).
    destruct (in_grid_cell self (_checked self) _ _ (inv_checked _ HI) Hg) as [c Hc].
    simpl. rewrite (set2d_ok _ _ _ _ c) by (done || (destruct Hg; lia)).
    pose proof (step_offspring rnd self p Hacc) as Hs. rewrite Et in Hs. simpl in Hs.
    eexists _, _, _. split; [done|]. split; [by apply rtc_once|].
    split; [by eapply step_Inv|]. split; [lia|].
    exists 1%nat. split; [|simpl; lia].
    rewrite occupied_store by done. lia.
  - exists self, active, w'. split; [done|]. split; [done|]. split; [done|].
    split; [lia|]. exists 0%nat. split; lia.
Qed.

Lemma offspring_loop_spec (rnd : nat -> R) (l : list Point) (self : t)
    (active : list Point) (w : World) :
  Inv self ->
  exists self' active' w',
    for_each l (self, active) place_offspring w = Ok ((self', active'), w') /\
    rtc (step rnd) self self' /\ Inv self' /\
    (pred_calls w' <= pred_calls w + length l)%nat /\
    exists m, occupied self' = (occupied self + m)%nat
              /\ length active' = (length active + m)%nat.
Proof.
  revert self active w. induction l as [|p l IH]; intros self active w HI;
    cbn [for_each].
  - exists self, active, w. split; [done|]. split; [done|]. split; [done|].
    split; [simpl; lia|]. exists 0%nat. split; lia.
  - destruct (place_offspring_spec rnd p self active w HI)
      as (self1 & active1 & w1 & Hrun1 & Hr1 & HI1 & Hc1 & m1 & Ho1 & Ha1).
    destruct (IH self1 active1 w1 HI1)
      as (self2 & active2 & w2 & Hrun2 & Hr2 & HI2 & Hc2 & m2 & Ho2 & Ha2).
    unfold bind. rewrite Hrun1. exists self2, active2, w2.
    split; [done|]. split; [by etrans|]. split; [done|].
    split; [simpl length; lia|].
    exists (m1 + m2)%nat. split; lia.
Qed.

Lemma bridson_points_spec (rnd : nat -> R) (self : t) (base_pt : Point) (w : World) :
  exists pts w',
    _generate_bridson_points rnd self base_pt w = Ok (pts, w') /\
    length pts = k self /\ pred_calls w' = pred_calls w.
Proof.
  unfold _generate_bridson_points.
  assert (forall (l : list Z) acc w, exists pts w',
    for_each l acc (fun (_ : Z) (points : list Point) =>
      let* u := PyRandom.random rnd in
      let r := (sqrt (3 * u + 1) * centre_spacing (base self))%R in
      let* th := PyRandom.uniform rnd 0 (2 * PI) in
      ret (points ++ [(py_round (IZR base_pt.1 + r * sin th),
                       py_round (IZR base_pt.2 + r * cos th))])) w
    = Ok (pts, w') /\ length pts = (length acc + length l)%nat
      /\ pred_calls w' = pred_calls w) as Hgen.
  { intros l. induction l as [|a l IH]; intros acc w0; simpl.
    - exists acc, w0. split; [done|]. split; [lia|done].
    - unfold bind at 1. unfold bind at 1. unfold PyRandom.random at 1.
      unfold bind at 1. unfold PyRandom.uniform, bind, PyRandom.random, ret.
      edestruct IH as (pts & w' & Hrun & Hlen & Hc). rewrite Hrun.
      exists pts, w'. split; [done|]. rewrite Hlen, length_app. simpl.
      split; [lia|done]. }
  destruct (Hgen (py_range (Z.of_nat (k self))) [] w) as (pts & w' & Hrun & Hlen & Hc).
  exists pts, w'. split; [done|]. rewrite Hlen, py_range_length. simpl.
  split; [lia|done].
Qed.

Lemma drain_spec (rnd : nat -> R) (n : nat) :
  forall (self : t) (active : list Point) (w : World),
  Inv self ->
  (2 * (cells self - occupied self) + length active <= n)%nat ->
  exists self' w',
    (forall fuel, (n <= fuel)%nat ->
       drain rnd fuel self active w = Ok ((self', []), w')) /\
    advances rnd self w self' w' (k self * length active).
Proof.
  induction n as [|n IH]; intros self active w HI Hn.
  - destruct active as [|b rest]; [|simpl in Hn; lia].
    exists self, w. split; [intros fuel _; by destruct fuel|]. by apply advances_refl.
  - destruct active as [|b rest].
    { exists self, w. split; [intros fuel _; by destruct fuel|]. by apply advances_refl. }
    destruct (bridson_points_spec rnd self b w) as (pts & w1 & Hrun1 & Hlen & Hc1).
    destruct (offspring_loop_spec rnd pts self rest w1 HI)
      as (self1 & active1 & w2 & Hrun2 & Hr & HI1 & Hc2 & m & Ho & Ha).
    pose proof (occupied_le_cells self1 HI1) as Hle.
    pose proof (rtc_params _ _ _ Hr) as Hp.
    pose proof (params_cells _ _ Hp) as Hcells.
    apply params_fields in Hp as (_ & Hk & _).
    destruct (IH self1 active1 w2 HI1) as (self' & w' & Hrun3 & Hr3 & HI3 & Hc3).
    { simpl in Hn. lia. }
    exists self', w'. split.
    + intros fuel Hf. destruct fuel as [|fuel]; [lia|].
      cbn [drain]. unfold bind. rewrite Hrun1, Hrun2. apply Hrun3. lia.
    + split; [by etrans|]. split; [done|].
      rewrite Hk, Ho, Ha in Hc3. simpl length. nia.
Qed.

Lemma visit_cell_spec (rnd : nat -> R) (self : t) (i j : Z) (w : World) :
  Inv self -> in_grid self j i ->
  exists self' w',
    (forall fuel, (2 * cells self + 1 <= fuel)%nat ->
       visit_cell rnd fuel i j (self, []) w = Ok ((self', []), w')) /\
    advances rnd self w self' w' (k self) /\
    cell (_checked self') (Z.to_nat i) (Z.to_nat j) = Some true.
Proof.
  intros HI Hg. unfold visit_cell.
  destruct (in_grid_cell self (_checked self) _ _ (inv_checked _ HI) Hg) as [c Hc].
  assert (0 <= i /\ 0 <= j) as [Hi Hj] by (destruct Hg; lia).
  destruct c.
  { exists self, w. split.
    - intros fuel _. unfold bind. by rewrite (get2d_ok _ _ _ true).
    - split; [by apply advances_refl | done]. }
  pose proof (inv_unchecked _ HI _ _ Hc) as He.
  destruct (seed_cell_spec rnd (k self) self [] i j w HI Hg He)
    as (self1 & active1 & w1 & Hrun1 & Hc1 & Hres).
  set (self2 := set_checked self1 (upd (_checked self1) (Z.to_nat i) (Z.to_nat j) true)).
  assert (Hchk : _checked self1 = _checked self).
  { destruct Hres as [[-> _]|(a & b & p & _ & _ & -> & _)]; done. }
  assert (Hstep : step rnd self self2 /\
                  occupied self2 = (occupied self + length active1)%nat).
  { subst self2. destruct Hres as [[-> ->]|(a & b & p & Hp & Hacc & -> & ->)].
    - split; [by apply step_mark | simpl; unfold occupied; simpl; lia].
    - cbn [_checked set_points]. split; [by eapply step_seed|].
      rewrite occupied_store by done. simpl. lia. }
  destruct Hstep as [Hstep Hocc].
  pose proof (step_Inv _ _ _ Hstep HI) as HI2.
  pose proof (step_params _ _ _ Hstep) as Hp.
  pose proof (params_cells _ _ Hp) as Hcells.
  apply params_fields in Hp as (_ & Hk & _).
  pose proof (occupied_le_cells self2 HI2) as Hle.
  assert (length active1 <= 1)%nat as Hact.
  { destruct Hres as [[_ ->]|(a & b & p & _ & _ & _ & ->)]; simpl; lia. }
  destruct (drain_spec rnd (2 * cells self + 1) self2 active1 w1 HI2)
    as (self' & w' & Hrun3 & Hr3 & HI3 & Hc3); [lia|].
  exists self', w'. split; [|split].
  - intros fuel Hf. unfold bind. rewrite (get2d_ok _ _ _ false) by done.
    rewrite Hrun1. rewrite (set2d_ok _ _ _ _ false) by (by rewrite ?Hchk).
    by apply Hrun3.
  - split; [by eapply rtc_l|]. split; [done|].
    rewrite Hk, Hocc in Hc3. nia.
  - eapply rtc_checked; [done|]. subst self2. simpl. rewrite Hchk.
    by eapply cell_upd_eq.
Qed.

Lemma row_loop_spec (rnd : nat -> R) (i : Z) (js : list Z) :
  forall (self : t) (w : World),
  Inv self -> 0 <= i < _y_steps self ->
  Forall (fun j => 0 <= j < _x_steps self) js ->
  exists self' w',
    (forall fuel, (2 * cells self + 1 <= fuel)%nat ->
       for_each js (self, []) (fun j st => visit_cell rnd fuel i j st) w
       = Ok ((self', []), w')) /\
    advances rnd self w self' w' (k self * length js) /\
    Forall (fun j => cell (_checked self') (Z.to_nat i) (Z.to_nat j) = Some true) js.
Proof.
  induction js as [|j js IH]; intros self w HI Hi Hjs; cbn [for_each].
  - exists self, w. split; [done|]. split; [by apply advances_refl | done].
  - apply Forall_cons in Hjs as [Hj Hjs].
    destruct (visit_cell_spec rnd self i j w HI) as (self1 & w1 & Hrun1 & Hadv1 & Hck1);
      [done|].
    pose proof Hadv1 as (Hr1 & HI1 & _).
    pose proof (rtc_params _ _ _ Hr1) as Hp.
    pose proof (params_cells _ _ Hp) as Hcells.
    apply params_fields in Hp as (_ & Hk & _ & Hx & Hy).
    destruct (IH self1 w1 HI1) as (self2 & w2 & Hrun2 & Hadv2 & Hck2);
      [by rewrite Hy | by rewrite Hx |].
    exists self2, w2. split; [|split].
    + intros fuel Hf. unfold bind. rewrite Hrun1 by done. apply Hrun2. lia.
    + rewrite Hk in Hadv2.
      replace (k self * length (j :: js))%nat
        with (k self + k self * length js)%nat by (simpl; lia).
      by eapply advances_trans.
    + apply Forall_cons. split; [|done].
      destruct Hadv2 as (Hr2 & _). by eapply rtc_checked.
Qed.

Lemma grid_loop_spec (rnd : nat -> R) (il js : list Z) :
  forall (self : t) (w : World),
  Inv self ->
  Forall (fun i => 0 <= i < _y_steps self) il ->
  Forall (fun j => 0 <= j < _x_steps self) js ->
  exists self' w',
    (forall fuel, (2 * cells self + 1 <= fuel)%nat ->
       for_each il (self, []) (fun i st =>
         for_each js st (fun j st => visit_cell rnd fuel i j st)) w
       = Ok ((self', []), w')) /\
    advances rnd self w self' w' (k self * (length il * length js)) /\
    Forall (fun i =>
      Forall (fun j => cell (_checked self') (Z.to_nat i) (Z.to_nat j) = Some true) js)
      il.
Proof.
  induction il as [|i il IH]; intros self w HI Hil Hjs; cbn [for_each].
  - exists self, w. split; [done|]. split; [by apply advances_refl | done].
  - apply Forall_cons in Hil as [Hi Hil].
    destruct (row_loop_spec rnd i js self w HI Hi Hjs)
      as (self1 & w1 & Hrun1 & Hadv1 & Hck1).
    pose proof Hadv1 as (Hr1 & HI1 & _).
    pose proof (rtc_params _ _ _ Hr1) as Hp.
    pose proof (params_cells _ _ Hp) as Hcells.
    apply params_fields in Hp as (_ & Hk & _ & Hx & Hy).
    destruct (IH self1 w1 HI1) as (self2 & w2 & Hrun2 & Hadv2 & Hck2);
      [by rewrite Hy | by rewrite Hx |].
    exists self2, w2. split; [|split].
    + intros fuel Hf. unfold bind. rewrite Hrun1 by done. apply Hrun2. lia.
    + rewrite Hk in Hadv2.
      replace (k self * (length (i :: il) * length js))%nat
        with (k self * length js + k self * (length il * length js))%nat
        by (simpl; lia).
      by eapply advances_trans.
    + apply Forall_cons. split; [|done].
      destruct Hadv2 as (Hr2 & _).
      eapply Forall_impl; [exact Hck1|]. intros j Hj. by eapply rtc_checked.
Qed.

Lemma py_range_Forall (n : Z) : Forall (fun x => 0 <= x < n) (py_range n).
Proof. apply Forall_forall. intros x Hx. by apply py_range_elem. Qed.

(** The run of [generate_points] on an instance that satisfies [Inv]: with
    [2 * cells + 1] units of fuel or more it returns the occupied points of
    the grid it leaves, every cell of which is checked. *)
Lemma generate_points_spec (rnd : nat -> R) (self : t) (w : World) :
  Inv self ->
  exists self' w',
    (forall fuel, (2 * cells self + 1 <= fuel)%nat ->
       generate_points rnd fuel self w
       = Ok ((collect (_points self'), self'), w')) /\
    advances rnd self w self' w' (k self * cells self) /\
    all_checked self'.
Proof.
  intros HI.
  destruct (grid_loop_spec rnd (py_range (_y_steps self)) (py_range (_x_steps self))
              self w HI (py_range_Forall _) (py_range_Forall _))
    as (self' & w' & Hrun & Hadv & Hck).
  exists self', w'. split; [|split].
  - intros fuel Hf. unfold generate_points, bind. by rewrite Hrun.
  - by rewrite !py_range_length in Hadv.
  - destruct Hadv as (Hr & _).
    apply rtc_params, params_fields in Hr as (_ & _ & _ & Hx & Hy).
    intros i j [Hj Hi]. rewrite Hx in Hj. rewrite Hy in Hi.
    rewrite Forall_forall in Hck. specialize (Hck i).
    rewrite Forall_forall in Hck. apply Hck; by apply py_range_elem.
Qed.

(** ** BridsonFillStrategy: construction *)

Lemma init_ok (xr yr : Z * Z) (pred : Z -> Z -> bool) (s : R) (w : World) :
  s <> 0%R -> __init__ xr yr pred s w = Ok (fresh xr yr pred s, w).
Proof.
  intros Hs. pose proof sqrt2_pos. pose proof (star_pitch_nonzero s Hs).
  unfold __init__, bind. rewrite (py_truediv_ok s) by lra.
  by rewrite !py_truediv_ok by done.
Qed.

Lemma init_zero (xr yr : Z * Z) (pred : Z -> Z -> bool) (w : World) :
  __init__ xr yr pred 0 w = Raise ZeroDivisionError.
Proof.
  pose proof sqrt2_pos. unfold __init__, bind. rewrite (py_truediv_ok 0) by lra.
  replace (0 / sqrt 2)%R with 0%R by (unfold Rdiv; lra).
  by rewrite py_truediv_zero.
Qed.

Lemma fresh_cell {A : Type} (v : A) (ys xs : Z) (i j : nat) :
  cell (map (fun _ : Z => py_list_mul v xs) (py_range ys)) i j =
  if decide ((i < Z.to_nat ys)%nat /\ (j < Z.to_nat xs)%nat) then Some v else None.
Proof.
  unfold cell. rewrite list_lookup_fmap.
  destruct (decide _) as [[Hi Hj]|Hn].
  - rewrite py_range_lookup by done. simpl. unfold py_list_mul.
    by apply lookup_replicate_2.
  - destruct (py_range ys !! i) as [z|] eqn:E; [|done]. simpl.
    apply lookup_lt_Some in E. rewrite py_range_length in E.
    unfold py_list_mul. apply lookup_replicate_None. lia.
Qed.

Lemma fresh_dims {A : Type} (v : A) (ys xs : Z) :
  dims (map (fun _ : Z => py_list_mul v xs) (py_range ys)) ys xs.
Proof.
  split.
  - by rewrite length_map, py_range_length.
  - apply Forall_forall. intros row Hrow. apply list_elem_of_In, in_map_iff in Hrow as (z & <- & _).
    unfold py_list_mul. by rewrite length_replicate.
Qed.

Lemma fresh_Inv (xr yr : Z * Z) (pred : Z -> Z -> bool) (s : R) :
  s <> 0%R -> Inv (fresh xr yr pred s).
Proof.
  intros Hs. constructor; simpl.
  - by apply star_pitch_nonzero.
  - apply fresh_dims.
  - apply fresh_dims.
  - intros i j. rewrite !fresh_cell. by destruct (decide _).
Qed.

Lemma fresh_stored (Q : Point -> Prop) (xr yr : Z * Z) (pred : Z -> Z -> bool) (s : R) :
  stored Q (fresh xr yr pred s).
Proof. intros i j p. simpl. rewrite fresh_cell. by destruct (decide _). Qed.

Lemma fresh_collect (xr yr : Z * Z) (pred : Z -> Z -> bool) (s : R) :
  collect (_points (fresh xr yr pred s)) = [].
Proof.
  destruct (collect (_points (fresh xr yr pred s))) as [|p l] eqn:E; [done|].
  assert (p ∈ collect (_points (fresh xr yr pred s))) as Hp by (rewrite E; left).
  apply elem_of_collect in Hp as (i & j & Hc).
  by apply (fresh_stored (fun _ => False)) in Hc.
Qed.

(** A run from construction: [__init__] and then [generate_points]. *)
Lemma run_spec (rnd : nat -> R) (xr yr : Z * Z) (pred : Z -> Z -> bool) (s : R)
    (w : World) :
  s <> 0%R ->
  exists self' w',
    (forall fuel, (fuel_bound (fresh xr yr pred s) <= fuel)%nat ->
       generate_points rnd fuel (fresh xr yr pred s) w
       = Ok ((collect (_points self'), self'), w')) /\
    (forall fuel, (fuel_bound (fresh xr yr pred s) <= fuel)%nat ->
       run rnd fuel xr yr pred s w = Ok (collect (_points self'), w')) /\
    advances rnd (fresh xr yr pred s) w self' w'
      (k (fresh xr yr pred s) * cells (fresh xr yr pred s)) /\
    all_checked self'.
Proof.
  intros Hs.
  destruct (generate_points_spec rnd (fresh xr yr pred s) w (fresh_Inv xr yr pred s Hs))
    as (self' & w' & Hrun & Hadv & Hck).
  exists self', w'. split; [done|]. split; [|done].
  intros fuel Hf. unfold run, bind. rewrite init_ok by done. by rewrite Hrun.
Qed.

(** ** Properties of the stored points *)

Lemma step_stored (rnd : nat -> R) (Q : Point -> Prop) (self self' : t) :
  (forall p, accepts self p -> Q p) ->
  step rnd self self' -> stored Q self -> stored Q self'.
Proof.
  intros HQ Hs Hst.
  destruct Hs as [self i j Hg | self i j n m p Hg He Hp Ha | self p Ha];
    intros i' j' q Hc; simpl in Hc.
  - by eapply Hst.
  - apply cell_upd_Some in Hc as [[_ [= ->]]|[_ Hc]]; [by apply HQ | by eapply Hst].
  - apply cell_upd_Some in Hc as [[_ [= ->]]|[_ Hc]]; [by apply HQ | by eapply Hst].
Qed.

Lemma rtc_stored (rnd : nat -> R) (Q : Point -> Prop) (self0 self self' : t) :
  (forall s p, params s = params self0 -> accepts s p -> Q p) ->
  rtc (step rnd) self self' -> params self = params self0 ->
  stored Q self -> stored Q self'.
Proof.
  intros HQ Hr. induction Hr as [|x y z Hxy _ IH]; [done|].
  intros Hp Hst. apply IH.
  - rewrite <- Hp. by eapply step_params.
  - eapply step_stored; [|done..]. intros p. by apply HQ.
Qed.

Lemma stored_collect (Q : Point -> Prop) (self : t) :
  stored Q self -> Forall Q (collect (_points self)).
Proof.
  intros Hst. apply Forall_forall. intros p Hp.
  apply elem_of_collect in Hp as (i & j & Hc). by eapply Hst.
Qed.

Lemma lattice_pred (pred : Z -> Z -> bool) (cand : Z -> Z -> Point) (xs ys : Z) :
  Forall (fun p => pred p.1 p.2 = true) (lattice pred cand xs ys).
Proof.
  apply Forall_forall. intros p Hp. unfold lattice, emit_row in Hp.
  apply list_elem_of_In, in_flat_map in Hp as (x_i & _ & Hp).
  apply in_flat_map in Hp as (y_i & _ & Hp). simpl in Hp.
  destruct (pred (cand x_i y_i).1 (cand x_i y_i).2) eqn:E; [|done].
  by destruct Hp as [<-|[]].
Qed.

(** ** C2: containment *)

Lemma bridson_stored_run (rnd : nat -> R) (Q : Point -> Prop) (xr yr : Z * Z)
    (pred : Z -> Z -> bool) (s : R) (w : World) :
  s <> 0%R ->
  (forall self p, params self = params (fresh xr yr pred s) -> accepts self p -> Q p) ->
  exists out w',
    (forall fuel, (fuel_bound (fresh xr yr pred s) <= fuel)%nat ->
       run rnd fuel xr yr pred s w = Ok (out, w')) /\
    Forall Q out.
Proof.
  intros Hs HQ.
  destruct (run_spec rnd xr yr pred s w Hs) as (self' & w' & _ & Hrun & (Hr & _) & _).
  exists (collect (_points self')), w'. split; [done|].
  apply stored_collect. eapply rtc_stored; [exact HQ | exact Hr | done |].
  apply fresh_stored.
Qed.

(** C2: for a positive spacing and any ranges, predicate and draws, every
    point that [generate_points] of the grid, of the star and of the Bridson
    strategy returns satisfies [valid_predicate]; each of the three calls
    does return. *)
Theorem containment (rnd : nat -> R) (self : FillStrategy) (w : World) :
  (0 < centre_spacing self)%R ->
  (exists out w',
     GridFillStrategy.generate_points self w = Ok (out, w') /\
     Forall (fun p => valid_predicate self p.1 p.2 = true) out)
  /\ (exists out w',
        StarFillStrategy.generate_points self w = Ok (out, w') /\
        Forall (fun p => valid_predicate self p.1 p.2 = true) out)
  /\ (exists out w',
        (forall fuel,
           (fuel_bound (fresh (x_range self) (y_range self) (valid_predicate self)
                          (centre_spacing self)) <= fuel)%nat ->
           run rnd fuel (x_range self) (y_range self) (valid_predicate self)
               (centre_spacing self) w = Ok (out, w')) /\
        Forall (fun p => valid_predicate self p.1 p.2 = true) out).
Proof.
  intros Hs. split; [|split].
  - rewrite grid_run by lra. eexists _, _. split; [done|]. apply lattice_pred.
  - pose proof (star_run self w) as Hrun. rewrite Hrun by lra.
    eexists _, _. split; [done|]. apply lattice_pred.
  - apply bridson_stored_run; [lra|].
    intros s p Hp Ha. apply params_fields in Hp as (Hb & _).
    pose proof (acc_pred _ _ Ha) as H. by rewrite Hb in H.
Qed.

Lemma containment_witness :
  (exists out w',
     GridFillStrategy.generate_points square_example (mkWorld 0 0) = Ok (out, w') /\
     Forall (fun p => valid_predicate square_example p.1 p.2 = true) out)
  /\ (exists out w',
        StarFillStrategy.generate_points square_example (mkWorld 0 0) = Ok (out, w') /\
        Forall (fun p => valid_predicate square_example p.1 p.2 = true) out)
  /\ (exists out w',
        (forall fuel,
           (fuel_bound (fresh (x_range square_example) (y_range square_example)
                          (valid_predicate square_example)
                          (centre_spacing square_example)) <= fuel)%nat ->
           run (fun _ => 0%R) fuel (x_range square_example) (y_range square_example)
               (valid_predicate square_example)
               (centre_spacing square_example) (mkWorld 0 0) = Ok (out, w')) /\
        Forall (fun p => valid_predicate square_example p.1 p.2 = true) out).
Proof.
  apply (containment (fun _ => 0%R) square_example (mkWorld 0 0)). simpl. lra.
Defined.

(** ** C10: Bridson points lie inside the bounding rectangle *)

Lemma floor_index_bounds (d D : Z) (c : R) :
  (0 < c)%R -> 0 <= py_floor (IZR d / c) < py_int (IZR D / c) -> 0 <= d < D.
Proof.
  intros Hc [Hlo Hhi]. unfold py_floor in *.
  pose proof (Zfloor_bound (IZR d / c)) as [Hf1 Hf2].
  assert (0 < / c)%R as Hic by (by apply Rinv_0_lt_compat).
  assert (0 <= IZR d / c)%R as Hq. { apply IZR_le in Hlo. lra. }
  assert (0 <= IZR d)%R as Hd.
  { apply Rmult_le_reg_r with (/ c)%R; [done|]. unfold Rdiv in Hq. lra. }
  split; [by apply le_IZR|].
  destruct (Rle_dec 0 (IZR D / c)) as [HQ|HQ].
  - rewrite py_int_nonneg in Hhi by done.
    pose proof (Zfloor_bound (IZR D / c)) as [HF1 HF2].
    assert (IZR (Zfloor (IZR d / c)) + 1 <= IZR (Zfloor (IZR D / c)))%R as Hle.
    { rewrite <- plus_IZR. apply IZR_le. lia. }
    assert (IZR d / c < IZR D / c)%R as Hlt by lra.
    apply lt_IZR. apply Rmult_lt_reg_r with (/ c)%R; [done|]. unfold Rdiv in Hlt. lra.
  - assert (py_int (IZR D / c) <= 0) by (apply py_int_nonpos; lra). lia.
Qed.

Lemma accepts_in_rectangle (self : t) (p : Point) :
  (0 < _cell_size self)%R ->
  _x_steps self = py_int (IZR ((x_range (base self)).2 - (x_range (base self)).1)
                          / _cell_size self) ->
  _y_steps self = py_int (IZR ((y_range (base self)).2 - (y_range (base self)).1)
                          / _cell_size self) ->
  accepts self p -> in_rectangle (base self) p.
Proof.
  intros Hc Hx Hy Ha. destruct (acc_in_grid _ _ Ha) as [Hgx Hgy].
  unfold true_cell in Hgx, Hgy. simpl in Hgx, Hgy. rewrite Hx in Hgx. rewrite Hy in Hgy.
  apply floor_index_bounds in Hgx; [|done]. apply floor_index_bounds in Hgy; [|done].
  unfold in_rectangle. lia.
Qed.

Lemma cell_size_pos (s : R) : (0 < s)%R -> (0 < s / sqrt 2)%R.
Proof.
  intros Hs. pose proof sqrt2_pos. unfold Rdiv.
  apply Rmult_lt_0_compat; [done|]. by apply Rinv_0_lt_compat.
Qed.

(** C10: every point that the Bridson strategy returns lies in the bounding
    rectangle, the minimum included and the maximum excluded on both axes:
    [x_min <= x < x_max] and [y_min <= y < y_max]. *)
Theorem bridson_inside_rectangle (rnd : nat -> R) (self : FillStrategy) (w : World) :
  (0 < centre_spacing self)%R ->
  exists out w',
    (forall fuel,
       (fuel_bound (fresh (x_range self) (y_range self) (valid_predicate self)
                      (centre_spacing self)) <= fuel)%nat ->
       run rnd fuel (x_range self) (y_range self) (valid_predicate self)
           (centre_spacing self) w = Ok (out, w')) /\
    Forall (in_rectangle self) out.
Proof.
  intros Hs. apply bridson_stored_run; [lra|].
  intros s p Hp Ha. apply params_fields in Hp as (Hb & _ & Hc & Hx & Hy).
  simpl in Hb, Hc, Hx, Hy.
  replace self with (base s) by (rewrite Hb; by destruct self).
  apply accepts_in_rectangle; [| | |done].
  - rewrite Hc. by apply cell_size_pos.
  - rewrite Hx, Hc, Hb. done.
  - rewrite Hy, Hc, Hb. done.
Qed.

Lemma bridson_inside_rectangle_witness :
  exists out w',
    (forall fuel,
       (fuel_bound (fresh (x_range square_example) (y_range square_example)
                      (valid_predicate square_example)
                      (centre_spacing square_example)) <= fuel)%nat ->
       run (fun _ => 0%R) fuel (x_range square_example) (y_range square_example)
           (valid_predicate square_example)
           (centre_spacing square_example) (mkWorld 0 0) = Ok (out, w')) /\
    Forall (in_rectangle square_example) out.
Proof.
  apply (bridson_inside_rectangle (fun _ => 0%R) square_example (mkWorld 0 0)).
  simpl. lra.
Defined.

(** The lattice strategies are not confined in this way: the grid of the
    example reaches the maximum of both ranges. *)
Example grid_reaches_maximum :
  exists out w',
    GridFillStrategy.generate_points square_example (mkWorld 0 0) = Ok (out, w') /\
    (10, 10) ∈ out /\ ~ in_rectangle square_example (10, 10).
Proof.
  pose proof grid_example_points as H.
  destruct (GridFillStrategy.generate_points square_example (mkWorld 0 0))
    as [[out w']| |]; [|done..].
  simpl in H. injection H as ->. eexists _, _. split; [done|]. split.
  - apply list_elem_of_In. simpl. do 8 right. by left.
  - unfold in_rectangle. simpl. lia.
Qed.

(** ** C7: the output is the row-major scan of the final grid *)

(** C7: the list that the Bridson strategy returns is the list of the
    occupied cells of the grid as the call leaves it, read in row-major order
    of the cell indices (rows [i] of [range(y_steps)], in each row the columns
    [j] of [range(x_steps)]); it is computed from that grid alone. *)
Theorem bridson_output_is_scan (rnd : nat -> R) (self : FillStrategy) (w : World) :
  (0 < centre_spacing self)%R ->
  exists final w',
    (forall fuel,
       (fuel_bound (fresh (x_range self) (y_range self) (valid_predicate self)
                      (centre_spacing self)) <= fuel)%nat ->
       generate_points rnd fuel
         (fresh (x_range self) (y_range self) (valid_predicate self)
                (centre_spacing self)) w
       = Ok ((scan final, final), w')) /\
    scan final = collect (_points final).
Proof.
  intros Hs.
  destruct (run_spec rnd (x_range self) (y_range self) (valid_predicate self)
              (centre_spacing self) w) as (self' & w' & Hrun & _ & (_ & HI & _) & _);
    [lra|].
  exists self', w'.
  rewrite <- (collect_scan self') by apply HI. done.
Qed.

Lemma bridson_output_is_scan_witness :
  exists final w',
    (forall fuel,
       (fuel_bound (fresh (x_range square_example) (y_range square_example)
                      (valid_predicate square_example)
                      (centre_spacing square_example)) <= fuel)%nat ->
       generate_points (fun _ => 0%R) fuel
         (fresh (x_range square_example) (y_range square_example)
                (valid_predicate square_example) (centre_spacing square_example))
         (mkWorld 0 0)
       = Ok ((scan final, final), w')) /\
    scan final = collect (_points final).
Proof.
  apply (bridson_output_is_scan (fun _ => 0%R) square_example (mkWorld 0 0)).
  simpl. lra.
Defined.

(** ** C4: termination and the number of predicate evaluations *)


(** What the constructor establishes, when it returns: the invariant of the
    loops, on an instance without a point. *)
Lemma init_Inv (xr yr : Z * Z) (pred : Z -> Z -> bool) (s : R) (w w' : World)
    (self : t) :
  __init__ xr yr pred s w = Ok (self, w') ->
  Inv self /\ collect (_points self) = [] /\ base self = mkFillStrategy xr yr pred s.
Proof.
  destruct (Req_dec_T s 0) as [->|Hs]; [by rewrite init_zero|].
  rewrite init_ok by done. intros [= <- <-].
  split; [by apply fresh_Inv|]. split; [apply fresh_collect | done].
Qed.

(** C4: on every instance that satisfies the invariant of the loops, as the
    constructor leaves it for any arguments, [generate_points] returns (with
    [2 * cells + 1] units of fuel for each [while] loop) and evaluates
    [valid_predicate] at most [2 * k * cells] times, where
    [cells = x_steps * y_steps] for the step counts [_x_steps] and [_y_steps]
    of the instance, whatever the constructor computed them to be; with the
    always-false predicate, on an instance that holds no point, it returns
    the empty list after at most [k * cells] evaluations, [k] for each
    cell. *)
Theorem bridson_terminates (rnd : nat -> R) (self : t) (w : World) :
  Inv self ->
  exists out self' w',
    (forall fuel, (fuel_bound self <= fuel)%nat ->
       generate_points rnd fuel self w = Ok ((out, self'), w'))
    /\ (pred_calls w' <= pred_calls w + 2 * (k self * cells self))%nat
    /\ ((forall x y, valid_predicate (base self) x y = false) ->
        collect (_points self) = [] ->
        out = [] /\ (pred_calls w' <= pred_calls w + k self * cells self)%nat).
Proof.
  intros HI.
  destruct (generate_points_spec rnd self w HI)
    as (self' & w' & Hrun & (Hr & HI' & Hc) & _).
  exists (collect (_points self')), self', w'. split; [done|].
  pose proof (occupied_le_cells self' HI') as Hocc.
  rewrite (params_cells _ _ (rtc_params _ _ _ Hr)) in Hocc.
  assert (k self * occupied self' <= k self * cells self)%nat as Hk
    by (by apply Nat.mul_le_mono_l).
  split; [lia|]. intros Hfalse Hempty.
  assert (collect (_points self') = []) as Hout.
  { destruct (collect (_points self')) as [|p l] eqn:E; [done|].
    assert (p ∈ collect (_points self')) as Hp by (rewrite E; apply list_elem_of_here).
    apply elem_of_collect in Hp as (i & j & Hcell).
    assert (stored (fun q => valid_predicate (base self) q.1 q.2 = true) self')
      as Hst.
    { eapply rtc_stored; [|exact Hr|done|].
      - intros s0 q Hp Ha. apply params_fields in Hp as (Hb & _).
        pose proof (acc_pred _ _ Ha) as H. by rewrite Hb in H.
      - intros i0 j0 q Hq.
        assert (q ∈ collect (_points self)) as Hin
          by (apply elem_of_collect; by exists i0, j0).
        rewrite Hempty in Hin. by apply elem_of_nil in Hin. }
    specialize (Hst i j p Hcell). cbv beta in Hst. by rewrite Hfalse in Hst. }
  split; [done|].
  unfold occupied in Hc. rewrite Hout, Hempty in Hc. simpl length in Hc. lia.
Qed.

Lemma bridson_terminates_witness :
  exists out self' w',
    (forall fuel,
       (fuel_bound (fresh (0, 10)%Z (0, 10)%Z (fun _ _ => false) 5) <= fuel)%nat ->
       generate_points rnd_zero fuel (fresh (0, 10)%Z (0, 10)%Z (fun _ _ => false) 5)
         (mkWorld 0 0) = Ok ((out, self'), w'))
    /\ (pred_calls w'
        <= pred_calls (mkWorld 0 0)
           + 2 * (k (fresh (0, 10)%Z (0, 10)%Z (fun _ _ => false) 5)
                  * cells (fresh (0, 10)%Z (0, 10)%Z (fun _ _ => false) 5)))%nat
    /\ ((forall x y,
           valid_predicate (base (fresh (0, 10)%Z (0, 10)%Z (fun _ _ => false) 5)) x y
           = false) ->
        collect (_points (fresh (0, 10)%Z (0, 10)%Z (fun _ _ => false) 5)) = [] ->
        out = []
        /\ (pred_calls w'
            <= pred_calls (mkWorld 0 0)
               + k (fresh (0, 10)%Z (0, 10)%Z (fun _ _ => false) 5)
                 * cells (fresh (0, 10)%Z (0, 10)%Z (fun _ _ => false) 5))%nat).
Proof.
  apply (bridson_terminates rnd_zero (fresh (0, 10)%Z (0, 10)%Z (fun _ _ => false) 5)
           (mkWorld 0 0)).
  apply fresh_Inv. lra.
Defined.

(** ** C1: minimum separation *)

















Lemma near_params (self self' : t) (i j : nat) (p : Point) :
  params self' = params self -> near self i j p -> near self' i j p.
Proof.
  intros H. apply params_fields in H as (Hb & _ & Hc & _).
  unfold near. by rewrite Hb, Hc.
Qed.






(** ** C3: degenerate ranges *)







(** ** C8: what a call leaves on the instance *)

Lemma visit_checked (rnd : nat -> R) (fuel : nat) (self : t) (i j : Z) (w : World) :
  0 <= i -> 0 <= j ->
  cell (_checked self) (Z.to_nat i) (Z.to_nat j) = Some true ->
  visit_cell rnd fuel i j (self, []) w = Ok ((self, []), w).
Proof.
  intros Hi Hj Hc. unfold visit_cell, bind. by rewrite (get2d_ok _ _ _ true).
Qed.

Lemma row_loop_checked (rnd : nat -> R) (fuel : nat) (self : t) (i : Z)
    (js : list Z) (w : World) :
  0 <= i ->
  Forall (fun j => 0 <= j /\
            cell (_checked self) (Z.to_nat i) (Z.to_nat j) = Some true) js ->
  for_each js (self, []) (fun j st => visit_cell rnd fuel i j st) w
  = Ok ((self, []), w).
Proof.
  intros Hi. induction js as [|j js IH]; intros Hjs; cbn [for_each]; [done|].
  apply Forall_cons in Hjs as [[Hj Hc] Hjs].
  unfold bind. rewrite visit_checked by done. by apply IH.
Qed.

Lemma grid_loop_checked (rnd : nat -> R) (fuel : nat) (self : t)
    (il js : list Z) (w : World) :
  Forall (fun i => 0 <= i /\
    Forall (fun j => 0 <= j /\
              cell (_checked self) (Z.to_nat i) (Z.to_nat j) = Some true) js) il ->
  for_each il (self, []) (fun i st =>
    for_each js st (fun j st => visit_cell rnd fuel i j st)) w
  = Ok ((self, []), w).
Proof.
  induction il as [|i il IH]; intros Hil; cbn [for_each]; [done|].
  apply Forall_cons in Hil as [[Hi Hjs] Hil].
  unfold bind. rewrite row_loop_checked by done. by apply IH.
Qed.

(** On an instance whose cells are all checked, [generate_points] draws no
    number, evaluates no predicate, assigns nothing and returns the points the
    grid already holds, whatever the draws and the fuel. *)
Lemma generate_points_again (rnd : nat -> R) (fuel : nat) (self : t) (w : World) :
  all_checked self ->
  generate_points rnd fuel self w = Ok ((collect (_points self), self), w).
Proof.
  intros Hall. unfold generate_points, bind.
  rewrite grid_loop_checked; [done|].
  apply Forall_forall. intros i Hi. apply py_range_elem in Hi.
  split; [lia|]. apply Forall_forall. intros j Hj. apply py_range_elem in Hj.
  split; [lia|]. apply Hall. unfold in_grid. lia.
Qed.

(** C8, as amended: the grid and the star strategy keep no state of a run
    (their outcome is the same in every world), and the active list of the
    Bridson strategy is local to a call; but the Bridson strategy builds its
    grid of points and its checked flags in [__init__] and keeps them on the
    instance: after a first call on a new instance, any further call on that
    instance, whatever the draws, the fuel and the world, draws no number,
    evaluates no predicate, leaves the instance as it is and returns the list
    of the first call again. *)
Theorem bridson_second_call (rnd : nat -> R) (self : FillStrategy) (w : World) :
  (0 < centre_spacing self)%R ->
  (forall w1 w2,
     outcome (GridFillStrategy.generate_points self w1)
     = outcome (GridFillStrategy.generate_points self w2)
     /\ outcome (StarFillStrategy.generate_points self w1)
        = outcome (StarFillStrategy.generate_points self w2))
  /\ exists out used w',
       (forall fuel,
          (fuel_bound (fresh (x_range self) (y_range self) (valid_predicate self)
                         (centre_spacing self)) <= fuel)%nat ->
          generate_points rnd fuel
            (fresh (x_range self) (y_range self) (valid_predicate self)
                   (centre_spacing self)) w
          = Ok ((out, used), w')) /\
       (forall rnd2 fuel2 w2,
          generate_points rnd2 fuel2 used w2 = Ok ((out, used), w2)).
Proof.
  intros Hs. split.
  - intros w1 w2. rewrite !grid_run by lra.
    pose proof (star_run self w1) as ->; [|lra].
    pose proof (star_run self w2) as ->; [|lra]. done.
  - destruct (run_spec rnd (x_range self) (y_range self) (valid_predicate self)
                (centre_spacing self) w) as (self' & w' & Hrun & _ & _ & Hall); [lra|].
    exists (collect (_points self')), self', w'. split; [done|].
    intros rnd2 fuel2 w2. by apply generate_points_again.
Qed.

Lemma bridson_second_call_witness :
  (forall w1 w2,
     outcome (GridFillStrategy.generate_points square_example w1)
     = outcome (GridFillStrategy.generate_points square_example w2)
     /\ outcome (StarFillStrategy.generate_points square_example w1)
        = outcome (StarFillStrategy.generate_points square_example w2))
  /\ exists out used w',
       (forall fuel,
          (fuel_bound (fresh (x_range square_example) (y_range square_example)
                         (valid_predicate square_example)
                         (centre_spacing square_example)) <= fuel)%nat ->
          generate_points rnd_zero fuel
            (fresh (x_range square_example) (y_range square_example)
                   (valid_predicate square_example) (centre_spacing square_example))
            (mkWorld 0 0)
          = Ok ((out, used), w')) /\
       (forall rnd2 fuel2 w2,
          generate_points rnd2 fuel2 used w2 = Ok ((out, used), w2)).
Proof.
  apply (bridson_second_call rnd_zero square_example (mkWorld 0 0)). simpl. lra.
Defined.

(** *** A run on one cell, step by step *)

Lemma two_over_sqrt2 : (2 / sqrt 2 = sqrt 2)%R.
Proof.
  pose proof sqrt2_pos. apply Rmult_eq_reg_r with (sqrt 2); [|lra].
  unfold Rdiv. rewrite Rmult_assoc, Rinv_l by lra. rewrite sqrt2_sqr. lra.
Qed.

Lemma inv_sqrt2_bounds : (0.70 < / sqrt 2 < 0.71)%R.
Proof.
  pose proof sqrt2_bounds as [Hlo Hhi]. pose proof sqrt2_sqr as Hsq.
  assert (/ sqrt 2 = sqrt 2 / 2)%R as ->.
  { apply Rmult_eq_reg_r with (sqrt 2); [|lra]. rewrite Rinv_l by lra.
    unfold Rdiv. lra. }
  lra.
Qed.

Lemma one_cell_steps : py_int (IZR 2 / (2 / sqrt 2)) = 1.
Proof.
  pose proof sqrt2_bounds. pose proof sqrt2_pos.
  assert (IZR 2 / (2 / sqrt 2) = sqrt 2)%R as ->.
  { rewrite two_over_sqrt2. apply two_over_sqrt2. }
  apply py_int_eq_nonneg; simpl; lra.
Qed.

Lemma one_cell_eq : one_cell = one_cell_built.
Proof.
  unfold one_cell, one_cell_built, fresh. cbn [fst snd].
  change (IZR (2 - 0)) with (IZR 2). by rewrite one_cell_steps.
Qed.

Lemma one_cell_index_origin : true_cell one_cell_built (0, 0) = (0, 0).
Proof.
  unfold true_cell. cbn [fst snd one_cell_built base x_range y_range _cell_size].
  change (IZR (0 - 0)) with (IZR 0).
  replace (IZR 0 / (2 / sqrt 2))%R with (IZR 0) by (unfold Rdiv; lra).
  unfold py_floor. by rewrite ZfloorZ.
Qed.

Lemma one_cell_index_11 : true_cell one_cell_built (1, 1) = (0, 0).
Proof.
  unfold true_cell. cbn [fst snd one_cell_built base x_range y_range _cell_size].
  change (IZR (1 - 0)) with (IZR 1).
  rewrite two_over_sqrt2. pose proof inv_sqrt2_bounds.
  rewrite (py_floor_eq 0); [done|]. unfold Rdiv. lra.
Qed.

Lemma one_cell_seed_zero (n m : nat) :
  seed_point one_cell_built 0 0 (rnd_zero n) (rnd_zero m) = (0, 0).
Proof.
  unfold seed_point, rnd_zero.
  cbn [fst snd one_cell_built base x_range y_range _cell_size].
  replace (0 + (0 + 0) * (2 / sqrt 2))%R with (IZR 0) by (simpl; lra).
  by rewrite py_round_IZR.
Qed.

Lemma one_cell_seed_half (n m : nat) :
  seed_point one_cell_built 0 0 (rnd_half n) (rnd_half m) = (1, 1).
Proof.
  unfold seed_point, rnd_half.
  cbn [fst snd one_cell_built base x_range y_range _cell_size].
  rewrite two_over_sqrt2. pose proof sqrt2_bounds.
  rewrite (py_round_up 1); [done|]. simpl. lra.
Qed.

Lemma one_cell_size_nonzero : (2 / sqrt 2 <> 0)%R.
Proof. rewrite two_over_sqrt2. pose proof sqrt2_pos. lra. Qed.

Lemma one_cell_valid_origin (w : World) :
  _is_valid one_cell_built (0, 0) w
  = Ok (true, mkWorld (rand_pos w) (S (pred_calls w))).
Proof.
  unfold _is_valid, bind.
  rewrite cell_index_ok by apply one_cell_size_nonzero.
  rewrite one_cell_index_origin. reflexivity.
Qed.

Lemma one_cell_valid_11 (w : World) :
  _is_valid one_cell_built (1, 1) w
  = Ok (false, mkWorld (rand_pos w) (S (pred_calls w))).
Proof.
  unfold _is_valid, bind.
  rewrite cell_index_ok by apply one_cell_size_nonzero.
  rewrite one_cell_index_11. reflexivity.
Qed.

Lemma one_cell_seed_half_fails (n : nat) (w : World) :
  seed_cell rnd_half n one_cell_built [] 0 0 w
  = Ok ((one_cell_built, []),
        mkWorld (rand_pos w + 2 * n) (pred_calls w + n)).
Proof.
  revert w. induction n as [|n IH]; intros w; cbn [seed_cell].
  - unfold ret. rewrite !Nat.add_0_r. by destruct w.
  - unfold bind at 1. rewrite random_point_run, one_cell_seed_half.
    unfold bind at 1. rewrite one_cell_valid_11. rewrite IH. simpl.
    f_equal. f_equal. f_equal; lia.
Qed.

Lemma one_cell_marked_Inv (c : option Point) : Inv (one_cell_marked c).
Proof.
  constructor; simpl.
  - apply one_cell_size_nonzero.
  - split; [done|]. by repeat constructor.
  - split; [done|]. by repeat constructor.
  - intros [|[|i]] [|[|j]]; by simpl.
Qed.

Lemma step_keeps_point (rnd : nat -> R) (self self' : t) (i j : nat) (p : Point) :
  step rnd self self' ->
  cell (_points self) i j = Some (Some p) -> cell (_points self') i j = Some (Some p).
Proof.
  intros Hs Hc.
  destruct Hs as [self i0 j0 Hg | self i0 j0 n m p0 Hg He Hp Ha | self p0 Ha];
    cbn [_points set_checked set_points].
  - done.
  - rewrite cell_upd_ne; [done|]. intros [= <- <-]. congruence.
  - rewrite cell_upd_ne; [done|]. intros [= <- <-].
    pose proof (acc_empty _ _ Ha) as H.
    assert (Some (Some p) = Some (@None Point)) as Habs
      by (rewrite <- Hc; exact H).
    discriminate.
Qed.

Lemma rtc_keeps_point (rnd : nat -> R) (self self' : t) (i j : nat) (p : Point) :
  rtc (step rnd) self self' ->
  cell (_points self) i j = Some (Some p) -> cell (_points self') i j = Some (Some p).
Proof.
  induction 1 as [|x y z Hxy _ IH]; [done|].
  intros Hc. apply IH. by eapply step_keeps_point.
Qed.

Lemma collect_one_cell (grid : list (list (option Point))) (p : Point) :
  dims grid 1 1 -> cell grid 0 0 = Some (Some p) -> collect grid = [p].
Proof.
  intros [Hl Hr] Hc.
  destruct grid as [|row [|row' grid]]; [done| |done].
  apply Forall_cons in Hr as [Hrow _].
  destruct row as [|c [|c' row]]; [done| |done].
  unfold cell in Hc. simpl in Hc. by injection Hc as ->.
Qed.

Lemma one_cell_generate (rnd : nat -> R) (fuel : nat) (self : t) (w : World) :
  _x_steps self = 1 -> _y_steps self = 1 ->
  generate_points rnd fuel self w =
  match visit_cell rnd fuel 0 0 (self, []) w with
  | Ok ((self', _), w') => Ok ((collect (_points self'), self'), w')
  | Raise e => Raise e
  | Timeout => Timeout
  end.
Proof.
  intros Hx Hy. unfold generate_points. rewrite Hx, Hy.
  change (py_range 1) with [0]. cbn [for_each]. unfold bind, ret.
  by destruct (visit_cell rnd fuel 0 0 (self, []) w) as [[[s a] w']| |].
Qed.

Lemma one_cell_first_visit (used : t) (w1 : World) :
  drain rnd_zero 3 (one_cell_marked (Some (0, 0))) [(0, 0)] (mkWorld 2 1)
  = Ok ((used, []), w1) ->
  visit_cell rnd_zero 3 0 0 (one_cell_built, []) (mkWorld 0 0)
  = Ok ((used, []), w1).
Proof.
  intros Hdrain. unfold visit_cell, bind.
  rewrite (get2d_ok _ _ _ false) by done.
  change (k one_cell_built) with 10%nat. cbn [seed_cell]. unfold bind at 1.
  rewrite random_point_run, one_cell_seed_zero.
  unfold bind at 1. rewrite one_cell_valid_origin.
  unfold bind at 1. rewrite (set2d_ok _ _ _ _ None) by done.
  unfold ret at 1.
  rewrite (set2d_ok _ _ _ _ false) by done.
  exact Hdrain.
Qed.

Lemma one_cell_half_visit (w : World) :
  visit_cell rnd_half 3 0 0 (one_cell_built, []) w
  = Ok ((one_cell_marked None, []),
        mkWorld (rand_pos w + 20) (pred_calls w + 10)).
Proof.
  unfold visit_cell, bind.
  rewrite (get2d_ok _ _ _ false) by done.
  change (k one_cell_built) with 10%nat. rewrite one_cell_seed_half_fails.
  rewrite (set2d_ok _ _ _ _ false) by done. reflexivity.
Qed.

(** C8 as stated fails: on the one-cell instance, a first call with draws
    that are all 0 stores the point (0, 0) and marks the cell, so the
    instance is no longer the one [__init__] built; a second call, with draws
    that are all 1/2, returns [(0, 0)] again, where a new instance with the
    same arguments, the same draws and the same world returns the empty
    list (its seed candidates are all (1, 1), which the predicate rejects). *)
Lemma second_call_counterexample :
  exists used w1,
    generate_points rnd_zero 3 one_cell (mkWorld 0 0) = Ok (([(0, 0)], used), w1)
    /\ used <> one_cell
    /\ points_of (generate_points rnd_half 3 used w1) = Ok [(0, 0)]
    /\ points_of (generate_points rnd_half 3 one_cell w1) = Ok [].
Proof.
  rewrite one_cell_eq.
  destruct (drain_spec rnd_zero 1 (one_cell_marked (Some (0, 0))) [(0, 0)]
              (mkWorld 2 1) (one_cell_marked_Inv _))
    as (used & w1 & Hdrain & Hr & HI & _).
  { unfold cells, occupied. simpl. lia. }
  specialize (Hdrain 3%nat ltac:(lia)).
  pose proof (rtc_params _ _ _ Hr) as Hp.
  apply params_fields in Hp as (_ & _ & _ & Hx & Hy). simpl in Hx, Hy.
  assert (Hpts : collect (_points used) = [(0, 0)]).
  { apply collect_one_cell.
    - pose proof (inv_points _ HI) as Hd. by rewrite Hx, Hy in Hd.
    - by eapply rtc_keeps_point. }
  assert (Hchk : cell (_checked used) 0 0 = Some true)
    by (by eapply rtc_checked).
  exists used, w1. split; [|split; [|split]].
  - rewrite one_cell_generate by done.
    by rewrite (one_cell_first_visit used w1 Hdrain), Hpts.
  - intros ->. done.
  - rewrite generate_points_again; [by rewrite Hpts|].
    intros i j [Hj Hi]. rewrite Hx in Hj. rewrite Hy in Hi.
    by replace i with 0 by lia; replace j with 0 by lia.
  - rewrite one_cell_generate by done. by rewrite one_cell_half_visit.
Qed.

(** ** The validity test returns [True] exactly on [accepts] *)

Lemma neighbours_clear_true (self : t) (p : Point) (x_i y_i : Z)
    (offsets : list (Z * Z)) (w : World) :
  dims (_points self) (_y_steps self) (_x_steps self) ->
  (forall ox oy n,
     (ox, oy) ∈ offsets -> in_grid self (x_i + ox) (y_i + oy) ->
     cell (_points self) (Z.to_nat (y_i + oy)) (Z.to_nat (x_i + ox)) = Some (Some n) ->
     ~ (distance n p < centre_spacing (base self))%R) ->
  neighbours_clear self p x_i y_i offsets w = Ok (true, w).
Proof.
  intros Hd. induction offsets as [|[ox_i oy_i] rest IH]; intros Hclear; simpl; [done|].
  assert (Hrest : neighbours_clear self p x_i y_i rest w = Ok (true, w)).
  { apply IH. intros ox oy n Hin. apply Hclear. by apply list_elem_of_further. }
  destruct (out_of_grid self (x_i + ox_i) (y_i + oy_i)) eqn:Eg; [done|].
  apply out_of_grid_false in Eg.
  destruct (in_grid_cell self (_points self) _ _ Hd Eg) as [c Hc].
  unfold bind. rewrite (get2d_ok _ _ _ c) by (done || (destruct Eg; lia)).
  destruct c as [n|]; [|done].
  destruct (Rlt_dec (distance n p) (centre_spacing (base self))) as [Hlt|Hge]; [|done].
  exfalso. by apply (Hclear ox_i oy_i n (list_elem_of_here _ _) Eg Hc).
Qed.

Lemma is_valid_accepts (self : t) (p : Point) (w : World) :
  Inv self -> accepts self p ->
  _is_valid self p w = Ok (true, mkWorld (rand_pos w) (S (pred_calls w))).
Proof.
  intros HI [Hg He Hclear Hp]. unfold _is_valid, bind.
  rewrite cell_index_ok by apply HI.
  destruct (true_cell self p) as [x_i y_i] eqn:Et. simpl in Hg, He, Hclear.
  apply out_of_grid_false in Hg as Hog. rewrite Hog.
  rewrite (get2d_ok _ _ _ None) by (done || (destruct Hg; lia)).
  rewrite neighbours_clear_true by (done || apply HI).
  unfold call_predicate. by rewrite Hp.
Qed.

(** ** Scan order against the order of acceptance *)

Lemma not_close (n p : Point) (s : R) :
  (0 <= s)%R -> (s * s <= IZR ((n.1 - p.1) ^ 2 + (n.2 - p.2) ^ 2))%R ->
  ~ (distance n p < s)%R.
Proof.
  intros H0 H. unfold distance. apply Rle_not_lt.
  rewrite <- (sqrt_square s) at 1 by done. by apply sqrt_le_1_alt.
Qed.

Lemma two_by_two_index (chk : list (list bool)) (pts : list (list (option Point))) :
  true_cell (two_by_two chk pts) (0, 2) = (0, 1)
  /\ true_cell (two_by_two chk pts) (2, 0) = (1, 0).
Proof.
  unfold true_cell. cbn [fst snd two_by_two base x_range y_range _cell_size].
  change (IZR (0 - 0)) with (IZR 0). change (IZR (2 - 0)) with (IZR 2).
  assert (py_floor (IZR 0 / (2 / sqrt 2)) = 0) as ->.
  { apply py_floor_eq. unfold Rdiv. simpl. lra. }
  assert (py_floor (IZR 2 / (2 / sqrt 2)) = 1) as ->; [|done].
  apply py_floor_eq. rewrite two_over_sqrt2, two_over_sqrt2.
  pose proof sqrt2_bounds. simpl. lra.
Qed.

Lemma two_by_two_accepts (chk : list (list bool)) (pts : list (list (option Point)))
    (p : Point) (tx ty : Z) :
  true_cell (two_by_two chk pts) p = (tx, ty) ->
  0 <= tx < 2 -> 0 <= ty < 2 ->
  cell pts (Z.to_nat ty) (Z.to_nat tx) = Some None ->
  Forall (fun n => 4 <= (n.1 - p.1) ^ 2 + (n.2 - p.2) ^ 2) (collect pts) ->
  accepts (two_by_two chk pts) p.
Proof.
  intros Et Hx Hy He Hfar. constructor; rewrite ?Et; simpl; try done.
  intros ox oy n _ _ Hc. rewrite Forall_forall in Hfar.
  apply not_close; [lra|]. apply (IZR_le 4). apply Hfar.
  apply elem_of_collect. by eexists _, _.
Qed.

Lemma two_by_two_Inv (chk : list (list bool)) (pts : list (list (option Point))) :
  dims chk 2 2 -> dims pts 2 2 ->
  (forall i j, cell chk i j = Some false -> cell pts i j = Some None) ->
  Inv (two_by_two chk pts).
Proof. intros Hc Hp Hu. constructor; simpl; try done. apply one_cell_size_nonzero. Qed.

(** On the two-by-two instance whose cell (0, 0) holds the seed (0, 0), the
    offspring candidates (0, 2) and (2, 0) are accepted in that order (the
    active list ends with (2, 0) on top of (0, 2)), and the final scan
    returns (2, 0), of row 0, before (0, 2), of row 1. *)
Example scan_order_is_not_acceptance_order (w : World) :
  exists final,
    for_each [(0, 2); (2, 0)]
      (two_by_two [[true; false]; [false; false]]
                  [[Some (0, 0); None]; [None; None]], [])
      place_offspring w
    = Ok ((final, [(2, 0); (0, 2)]),
          mkWorld (rand_pos w) (S (S (pred_calls w))))
    /\ collect (_points final) = [(0, 0); (2, 0); (0, 2)].
Proof.
  set (X1 := two_by_two [[true; false]; [false; false]]
                        [[Some (0, 0); None]; [None; None]]).
  set (X2 := two_by_two [[true; false]; [true; false]]
                        [[Some (0, 0); None]; [Some (0, 2); None]]).
  set (X3 := two_by_two [[true; true]; [true; false]]
                        [[Some (0, 0); Some (2, 0)]; [Some (0, 2); None]]).
  assert (HI1 : Inv X1).
  { apply two_by_two_Inv; [by repeat constructor..|].
    intros [|[|i]] [|[|j]]; by simpl. }
  assert (HI2 : Inv X2).
  { apply two_by_two_Inv; [by repeat constructor..|].
    intros [|[|i]] [|[|j]]; by simpl. }
  destruct (two_by_two_index [[true; false]; [false; false]]
              [[Some (0, 0); None]; [None; None]]) as [Et1 _].
  destruct (two_by_two_index [[true; false]; [true; false]]
              [[Some (0, 0); None]; [Some (0, 2); None]]) as [_ Et2].
  fold X1 in Et1. fold X2 in Et2.
  assert (Ha1 : accepts X1 (0, 2)).
  { eapply two_by_two_accepts; [exact Et1 | lia | lia | done |].
    repeat constructor; simpl; lia. }
  assert (Ha2 : accepts X2 (2, 0)).
  { eapply two_by_two_accepts; [exact Et2 | lia | lia | done |].
    repeat constructor; simpl; lia. }
  exists X3. split; [|done].
  cbn [for_each]. unfold bind at 1. unfold place_offspring at 1.
  unfold bind at 1. rewrite (is_valid_accepts X1) by done.
  unfold bind at 1. rewrite cell_index_ok by apply HI1. rewrite Et1.
  unfold bind at 1. rewrite (set2d_ok _ _ _ _ None) by done.
  unfold bind at 1. rewrite (set2d_ok _ _ _ _ false) by done.
  unfold ret at 1.
  change (set_checked _ _) with X2.
  unfold bind at 1. unfold place_offspring at 1.
  unfold bind at 1. rewrite (is_valid_accepts X2) by done.
  unfold bind at 1. rewrite cell_index_ok by apply HI2. rewrite Et2.
  unfold bind at 1. rewrite (set2d_ok _ _ _ _ None) by done.
  unfold bind at 1. rewrite (set2d_ok _ _ _ _ false) by done.
  reflexivity.
Qed.

(** * Further properties of the code *)

(** ** Candidates around a base point *)









(** ** Seed candidates and cell indices *)





(** ** What the validity test decides and when it asks the predicate *)

Lemma cell_index_in_ok (A : Arith) (self : t) (p : Point) (w : World) :
  _cell_size self <> 0%R ->
  _cell_index_in A self p w = Ok (true_cell_in A self p, w).
Proof.
  intros H. unfold _cell_index_in, bind. by rewrite !py_truediv_in_ok by done.
Qed.

(** With exact arithmetic [_is_valid_in] is [_is_valid]. *)
Lemma is_valid_in_exact (self : t) (p : Point) (w : World) :
  _is_valid_in exact self p w = _is_valid self p w.
Proof.
  unfold _is_valid_in, _is_valid, bind.
  change (_cell_index_in exact self p w) with (_cell_index self p w).
  destruct (_cell_index self p w) as [[[x_i y_i] w1]| |]; [|done..].
  destruct (out_of_grid self x_i y_i); [done|].
  destruct (get2d (_points self) y_i x_i w1) as [[[q|] w2]| |]; [done | | done..].
  assert (forall offsets w0,
            neighbours_clear_in exact self p x_i y_i offsets w0
            = neighbours_clear self p x_i y_i offsets w0) as ->; [|done].
  induction offsets as [|[ox oy] rest IH]; intros w0; [done|].
  cbn [neighbours_clear_in neighbours_clear].
  destruct (out_of_grid self (x_i + ox) (y_i + oy)); [apply IH|].
  unfold bind. destruct (get2d _ _ _ w0) as [[[n|] w3]| |];
    [|apply IH | done..].
  change (distance_in exact n p) with (distance n p).
  destruct (Rlt_dec _ _); [done | apply IH].
Qed.

Lemma neighbours_clear_in_decides (A : Arith) (self : t) (p : Point) (x_i y_i : Z)
    (offsets : list (Z * Z)) (w : World) :
  dims (_points self) (_y_steps self) (_x_steps self) ->
  exists b,
    neighbours_clear_in A self p x_i y_i offsets w = Ok (b, w)
    /\ (b = true <->
        forall ox oy n,
          (ox, oy) ∈ offsets -> in_grid self (x_i + ox) (y_i + oy) ->
          cell (_points self) (Z.to_nat (y_i + oy)) (Z.to_nat (x_i + ox))
          = Some (Some n) ->
          ~ (distance_in A n p < centre_spacing (base self))%R).
Proof.
  intros Hd. induction offsets as [|[ox_i oy_i] rest IH]; cbn [neighbours_clear_in].
  - exists true. split; [done|]. split; [|done].
    intros _ ox oy n H. by apply elem_of_nil in H.
  - destruct IH as (b & Hrun & Hb).
    destruct (out_of_grid self (x_i + ox_i) (y_i + oy_i)) eqn:Eg.
    + exists b. split; [done|]. rewrite Hb. split.
      * intros H ox oy n Hin Hg Hc.
        apply elem_of_cons in Hin as [[= -> ->]|Hin]; [|by eapply H].
        by apply out_of_grid_true in Eg.
      * intros H ox oy n Hin. apply H. by apply list_elem_of_further.
    + apply out_of_grid_false in Eg.
      destruct (in_grid_cell self (_points self) _ _ Hd Eg) as [c Hc].
      unfold bind. rewrite (get2d_ok _ _ _ c) by (done || (destruct Eg; lia)).
      destruct c as [n0|].
      * destruct (Rlt_dec (distance_in A n0 p) (centre_spacing (base self)))
          as [Hlt|Hge].
        -- exists false. split; [done|]. split; [done|]. intros H. exfalso.
           by apply (H ox_i oy_i n0 (list_elem_of_here _ _) Eg Hc).
        -- exists b. split; [done|]. rewrite Hb. split.
           ++ intros H ox oy n Hin Hg Hc'.
              apply elem_of_cons in Hin as [[= -> ->]|Hin]; [|by eapply H].
              rewrite Hc in Hc'. by injection Hc' as <-.
           ++ intros H ox oy n Hin. apply H. by apply list_elem_of_further.
      * exists b. split; [done|]. rewrite Hb. split.
        -- intros H ox oy n Hin Hg Hc'.
           apply elem_of_cons in Hin as [[= -> ->]|Hin]; [|by eapply H].
           by rewrite Hc in Hc'.
        -- intros H ox oy n Hin. apply H. by apply list_elem_of_further.
Qed.

(** X5: on an instance that satisfies the invariant of the loops, and in any
    floating-point arithmetic, [_is_valid] raises nothing, takes no draw, and
    returns [True] exactly when the cell index of the point is in the grid,
    that cell is empty, no point stored in the 20 cells of the kernel is at a
    distance below the spacing, and the predicate holds; the cell index and
    the distance are as the arithmetic of the code computes them.  The
    predicate is evaluated once when the first three tests pass and not at
    all when one of them fails. *)
Theorem is_valid_decides (A : Arith) (self : t) (p : Point) (w : World) :
  Inv self ->
  exists b w',
    _is_valid_in A self p w = Ok (b, w')
    /\ (b = true <->
        unobstructed_in A self p /\ valid_predicate (base self) p.1 p.2 = true)
    /\ ((unobstructed_in A self p
         /\ w' = mkWorld (rand_pos w) (S (pred_calls w))
         /\ b = valid_predicate (base self) p.1 p.2)
        \/ (~ unobstructed_in A self p /\ w' = w /\ b = false)).
Proof.
  intros HI. unfold _is_valid_in, bind.
  rewrite cell_index_in_ok by apply HI.
  destruct (true_cell_in A self p) as [x_i y_i] eqn:Et.
  assert (Hno : ~ unobstructed_in A self p ->
    exists b w', Ok (false, w) = Ok (b, w')
      /\ (b = true <->
          unobstructed_in A self p /\ valid_predicate (base self) p.1 p.2 = true)
      /\ ((unobstructed_in A self p
           /\ w' = mkWorld (rand_pos w) (S (pred_calls w))
           /\ b = valid_predicate (base self) p.1 p.2)
          \/ (~ unobstructed_in A self p /\ w' = w /\ b = false))).
  { intros Hn. exists false, w. split; [done|]. split.
    - split; [done | by intros [Hu _]].
    - by right. }
  destruct (out_of_grid self x_i y_i) eqn:Eg.
  { apply Hno. intros Hu. apply out_of_grid_true in Eg. apply Eg.
    pose proof (uni_in_grid _ _ _ Hu) as Hg. by rewrite Et in Hg. }
  apply out_of_grid_false in Eg.
  destruct (in_grid_cell self (_points self) _ _ (inv_points _ HI) Eg) as [c Hc].
  rewrite (get2d_ok _ _ _ c) by (done || (destruct Eg; lia)).
  destruct c as [q|].
  { apply Hno. intros Hu. pose proof (uni_empty _ _ _ Hu) as He.
    rewrite Et in He. cbn [fst snd] in He. congruence. }
  destruct (neighbours_clear_in_decides A self p x_i y_i OFFSETS w (inv_points _ HI))
    as (b & Hrun & Hb).
  rewrite Hrun. destruct b.
  - assert (unobstructed_in A self p) as Hu.
    { constructor; rewrite Et; cbn [fst snd]; [done | done | by apply Hb]. }
    unfold call_predicate. eexists _, _. split; [done|]. split.
    + split; [by intros -> | by intros [_ ->]].
    + by left.
  - apply Hno. intros Hu.
    assert (false = true) as Habs; [|done]. apply Hb. intros ox oy n Hin Hg Hn.
    pose proof (uni_clear _ _ _ Hu ox oy n Hin) as Hcl.
    rewrite Et in Hcl. cbn [fst snd] in Hcl. by apply Hcl.
Qed.

Lemma is_valid_decides_witness :
  exists b w',
    _is_valid_in exact (one_cell_marked None) (1, 1) (mkWorld 0 0) = Ok (b, w')
    /\ (b = true <->
        unobstructed_in exact (one_cell_marked None) (1, 1)
        /\ valid_predicate (base (one_cell_marked None)) (1, 1).1 (1, 1).2 = true)
    /\ ((unobstructed_in exact (one_cell_marked None) (1, 1)
         /\ w' = mkWorld (rand_pos (mkWorld 0 0)) (S (pred_calls (mkWorld 0 0)))
         /\ b = valid_predicate (base (one_cell_marked None)) (1, 1).1 (1, 1).2)
        \/ (~ unobstructed_in exact (one_cell_marked None) (1, 1)
            /\ w' = mkWorld 0 0 /\ b = false)).
Proof.
  apply (is_valid_decides exact (one_cell_marked None) (1, 1) (mkWorld 0 0)).
  apply one_cell_marked_Inv.
Defined.

(** ** The Bridson strategy: size of the output and empty grids *)

Lemma for_each_skip {A B : Type} (l : list A) (acc : B) (body : A -> B -> M B)
    (w : World) :
  (forall a st w0, body a st w0 = Ok (st, w0)) ->
  for_each l acc body w = Ok (acc, w).
Proof.
  intros H. induction l as [|a l IH]; cbn [for_each]; [done|].
  unfold bind. by rewrite H.
Qed.

Lemma no_cell_no_point (self : t) :
  Inv self -> _x_steps self <= 0 \/ _y_steps self <= 0 ->
  collect (_points self) = [].
Proof.
  intros HI Hz. destruct (collect (_points self)) as [|p l] eqn:E; [done|].
  assert (p ∈ collect (_points self)) as Hp by (rewrite E; apply list_elem_of_here).
  apply elem_of_collect in Hp as (i & j & Hc).
  destruct (cell_in_dims _ _ _ _ _ _ (inv_points _ HI) Hc) as [Hi Hj]. lia.
Qed.

(** X6: a grid with no cell.  On an instance whose [_x_steps] or [_y_steps]
    is 0 or negative (the constructor computes them as [int] of a quotient,
    so it is one whenever a quotient is below 1), [generate_points] returns
    the empty list and leaves the instance as it is, without taking a draw or
    evaluating the predicate, whatever the fuel. *)
Theorem bridson_no_cell (rnd : nat -> R) (fuel : nat) (self : t) (w : World) :
  Inv self ->
  _x_steps self <= 0 \/ _y_steps self <= 0 ->
  generate_points rnd fuel self w = Ok (([], self), w).
Proof.
  intros HI Hz. unfold generate_points, bind.
  assert (for_each (py_range (_y_steps self)) (self, [])
            (fun i st =>
               for_each (py_range (_x_steps self)) st
                 (fun j st0 => visit_cell rnd fuel i j st0)) w
          = Ok ((self, []), w)) as ->.
  { destruct Hz as [Hx|Hy].
    - apply for_each_skip. intros i st w0. by rewrite py_range_nonpos.
    - by rewrite (py_range_nonpos (_y_steps self)). }
  by rewrite no_cell_no_point.
Qed.

Lemma bridson_no_cell_witness :
  generate_points rnd_zero 0 (fresh (5, 5) (0, 10) (fun _ _ => true) 5) (mkWorld 0 0)
  = Ok (([], fresh (5, 5) (0, 10) (fun _ _ => true) 5), mkWorld 0 0).
Proof.
  apply (bridson_no_cell rnd_zero 0 (fresh (5, 5) (0, 10) (fun _ _ => true) 5)
           (mkWorld 0 0)).
  - apply fresh_Inv. lra.
  - left. simpl. change (IZR (5 - 5)) with 0%R.
    replace (0 / (5 / sqrt 2))%R with 0%R by (unfold Rdiv; lra).
    change 0%R with (IZR 0). by rewrite py_int_IZR.
Defined.

(** X7: the number of points.  On every instance that satisfies the
    invariant of the loops, [generate_points] returns at most one point for
    each cell of the grid: at most [x_steps * y_steps] points for the step
    counts of the instance. *)
Theorem bridson_output_size (rnd : nat -> R) (self : t) (w : World) :
  Inv self ->
  exists out self' w',
    (forall fuel, (fuel_bound self <= fuel)%nat ->
       generate_points rnd fuel self w = Ok ((out, self'), w'))
    /\ (length out <= Z.to_nat (_y_steps self) * Z.to_nat (_x_steps self))%nat.
Proof.
  intros HI.
  destruct (generate_points_spec rnd self w HI)
    as (self' & w' & Hrun & (Hr & HI' & _) & _).
  exists (collect (_points self')), self', w'. split; [done|].
  pose proof (occupied_le_cells self' HI') as Hocc.
  rewrite (params_cells _ _ (rtc_params _ _ _ Hr)) in Hocc. exact Hocc.
Qed.

Lemma bridson_output_size_witness :
  exists out self' w',
    (forall fuel,
       (fuel_bound (fresh (0, 10)%Z (0, 10)%Z (fun _ _ => true) 5) <= fuel)%nat ->
       generate_points rnd_zero fuel (fresh (0, 10)%Z (0, 10)%Z (fun _ _ => true) 5)
         (mkWorld 0 0) = Ok ((out, self'), w'))
    /\ (length out
        <= Z.to_nat (_y_steps (fresh (0, 10)%Z (0, 10)%Z (fun _ _ => true) 5))
           * Z.to_nat (_x_steps (fresh (0, 10)%Z (0, 10)%Z (fun _ _ => true) 5)))%nat.
Proof.
  apply (bridson_output_size rnd_zero (fresh (0, 10)%Z (0, 10)%Z (fun _ _ => true) 5)
           (mkWorld 0 0)).
  apply fresh_Inv. lra.
Defined.




(** ** The Bridson strategy: a call on an instance that already holds points *)

(** X9: on any instance that satisfies the invariant of the loops (a new one
    or one that earlier calls have filled in part), [generate_points]
    returns; it leaves the attributes set by [__init__] as they are, leaves
    every cell checked, keeps every stored point in its cell and returns it,
    and every point it returns satisfies the predicate or was stored
    before the call. *)
Theorem generate_points_keeps_points (rnd : nat -> R) (self : t) (w : World) :
  Inv self ->
  exists out self' w',
    (forall fuel, (fuel_bound self <= fuel)%nat ->
       generate_points rnd fuel self w = Ok ((out, self'), w'))
    /\ params self' = params self
    /\ all_checked self'
    /\ (forall i j p, cell (_points self) i j = Some (Some p) ->
                      cell (_points self') i j = Some (Some p))
    /\ (forall p, p ∈ collect (_points self) -> p ∈ out)
    /\ (forall p, p ∈ out ->
          p ∈ collect (_points self)
          \/ valid_predicate (base self) p.1 p.2 = true).
Proof.
  intros HI.
  destruct (generate_points_spec rnd self w HI) as (self' & w' & Hrun & (Hr & _) & Hall).
  exists (collect (_points self')), self', w'.
  split; [done|]. split; [by apply (rtc_params rnd)|]. split; [done|].
  split; [intros i j p; by apply (rtc_keeps_point rnd)|]. split.
  - intros p Hp. apply elem_of_collect in Hp as (i & j & Hc).
    apply elem_of_collect. exists i, j. by eapply rtc_keeps_point.
  - intros p Hp. apply elem_of_collect in Hp as (i & j & Hc).
    assert (stored (fun q => q ∈ collect (_points self)
                             \/ valid_predicate (base self) q.1 q.2 = true) self')
      as Hst.
    { eapply rtc_stored; [|exact Hr|done|].
      - intros s0 q Hp Ha. right. apply params_fields in Hp as (Hb & _).
        pose proof (acc_pred _ _ Ha) as H. by rewrite Hb in H.
      - intros i0 j0 q Hq. left. apply elem_of_collect. by exists i0, j0. }
    by apply (Hst i j).
Qed.

Lemma generate_points_keeps_points_witness :
  exists out self' w',
    (forall fuel, (fuel_bound (one_cell_marked (Some (0, 0)%Z)) <= fuel)%nat ->
       generate_points rnd_zero fuel (one_cell_marked (Some (0, 0)%Z)) (mkWorld 0 0)
       = Ok ((out, self'), w'))
    /\ params self' = params (one_cell_marked (Some (0, 0)%Z))
    /\ all_checked self'
    /\ (forall i j p,
          cell (_points (one_cell_marked (Some (0, 0)%Z))) i j = Some (Some p) ->
          cell (_points self') i j = Some (Some p))
    /\ (forall p, p ∈ collect (_points (one_cell_marked (Some (0, 0)%Z))) -> p ∈ out)
    /\ (forall p, p ∈ out ->
          p ∈ collect (_points (one_cell_marked (Some (0, 0)%Z)))
          \/ valid_predicate (base (one_cell_marked (Some (0, 0)%Z))) p.1 p.2 = true).
Proof.
  apply (generate_points_keeps_points rnd_zero (one_cell_marked (Some (0, 0)%Z))
           (mkWorld 0 0)).
  apply one_cell_marked_Inv.
Defined.

(** ** Grid and Star: the predicate only filters *)

Lemma emit_row_filter (pred : Z -> Z -> bool) (cand : Z -> Point) (l : list Z) :
  emit_row pred cand l = List.filter (fun p => pred p.1 p.2) (map cand l).
Proof.
  unfold emit_row. induction l as [|a l IH]; [done|].
  cbn [flat_map map List.filter]. rewrite IH.
  by destruct (pred (cand a).1 (cand a).2).
Qed.

Lemma lattice_filter (pred : Z -> Z -> bool) (cand : Z -> Z -> Point) (xs ys : Z) :
  lattice pred cand xs ys
  = List.filter (fun p => pred p.1 p.2) (lattice (fun _ _ => true) cand xs ys).
Proof.
  unfold lattice. induction (py_range xs) as [|a l IH]; [done|].
  cbn [flat_map]. rewrite IH, List.filter_app. f_equal.
  rewrite (emit_row_true (fun _ _ => true)) by done. apply emit_row_filter.
Qed.

Lemma elem_of_lattice (pred : Z -> Z -> bool) (cand : Z -> Z -> Point)
    (xs ys : Z) (p : Point) :
  p ∈ lattice pred cand xs ys <->
  exists x_i y_i,
    0 <= x_i < xs /\ 0 <= y_i < ys /\ p = cand x_i y_i /\ pred p.1 p.2 = true.
Proof.
  unfold lattice, emit_row. rewrite list_elem_of_In, in_flat_map. split.
  - intros (x_i & Hx & Hp). apply in_flat_map in Hp as (y_i & Hy & Hp).
    apply list_elem_of_In, py_range_elem in Hx.
    apply list_elem_of_In, py_range_elem in Hy. simpl in Hp.
    destruct (pred (cand x_i y_i).1 (cand x_i y_i).2) eqn:E; [|done].
    destruct Hp as [<-|[]]. by exists x_i, y_i.
  - intros (x_i & y_i & Hx & Hy & -> & Hp). exists x_i.
    split; [by apply list_elem_of_In, py_range_elem|].
    apply in_flat_map. exists y_i.
    split; [by apply list_elem_of_In, py_range_elem|].
    simpl. rewrite Hp. by left.
Qed.

Lemma lattice_length_le (pred : Z -> Z -> bool) (cand : Z -> Z -> Point)
    (xs ys : Z) :
  (length (lattice pred cand xs ys)
   <= length (py_range xs) * length (py_range ys))%nat.
Proof.
  rewrite lattice_filter.
  etransitivity; [apply List.filter_length_le|].
  unfold lattice. rewrite (flat_map_blocks_length _ _ (length (py_range ys))); [done|].
  intros a _. rewrite emit_row_true by done. by rewrite length_map.
Qed.

(** X10: the predicate only filters.  For a spacing other than 0, the list
    the grid strategy returns is the list it returns with the always-true
    predicate, filtered by the predicate, in the same order; likewise for the
    star strategy.  The positions of the candidates do not depend on the
    predicate. *)
Theorem predicate_only_filters (self : FillStrategy) (w : World) :
  centre_spacing self <> 0%R ->
  exists all_grid all_star,
    outcome (GridFillStrategy.generate_points
               (with_predicate self (fun _ _ => true)) w) = Ok all_grid
    /\ outcome (GridFillStrategy.generate_points self w)
       = Ok (List.filter (fun p => valid_predicate self p.1 p.2) all_grid)
    /\ outcome (StarFillStrategy.generate_points
                  (with_predicate self (fun _ _ => true)) w) = Ok all_star
    /\ outcome (StarFillStrategy.generate_points self w)
       = Ok (List.filter (fun p => valid_predicate self p.1 p.2) all_star).
Proof.
  intros Hs. eexists _, _.
  rewrite !grid_run by done.
  pose proof (star_run self w Hs) as ->.
  pose proof (star_run (with_predicate self (fun _ _ => true)) w Hs) as ->.
  cbn [outcome with_predicate x_range y_range centre_spacing valid_predicate].
  split; [done|]. split; [f_equal; apply lattice_filter|].
  split; [done|]. f_equal. apply lattice_filter.
Qed.

Lemma predicate_only_filters_witness :
  exists all_grid all_star,
    outcome (GridFillStrategy.generate_points
               (with_predicate square_example (fun _ _ => true)) (mkWorld 0 0))
    = Ok all_grid
    /\ outcome (GridFillStrategy.generate_points square_example (mkWorld 0 0))
       = Ok (List.filter (fun p => valid_predicate square_example p.1 p.2) all_grid)
    /\ outcome (StarFillStrategy.generate_points
                  (with_predicate square_example (fun _ _ => true)) (mkWorld 0 0))
       = Ok all_star
    /\ outcome (StarFillStrategy.generate_points square_example (mkWorld 0 0))
       = Ok (List.filter (fun p => valid_predicate square_example p.1 p.2) all_star).
Proof.
  apply (predicate_only_filters square_example (mkWorld 0 0)). simpl. lra.
Defined.

(** X11: what a call of the grid and of the star strategy costs, in any
    floating-point arithmetic.  When its divisions are defined, each of them
    evaluates the predicate once for every pair of lattice indices,
    [x_steps * y_steps] times for the step counts [int(quotient) + 1] the
    code computes (a count of 0 or less enumerates nothing), whatever the
    predicate answers; it takes no draw and returns at most that many
    points. *)
Theorem grid_star_cost (A : Arith) (self : FillStrategy) (w : World) :
  Lawful A ->
  (centre_spacing self <> 0%R ->
   exists out,
     GridFillStrategy.generate_points_in A self w
     = Ok (out,
           mkWorld (rand_pos w)
             (pred_calls w
              + Z.to_nat (py_int (fquot A (of_int A ((x_range self).2 - (x_range self).1))
                                        (centre_spacing self)) + 1)
                * Z.to_nat (py_int (fquot A (of_int A ((y_range self).2 - (y_range self).1))
                                          (centre_spacing self)) + 1)))
     /\ (length out
         <= Z.to_nat (py_int (fquot A (of_int A ((x_range self).2 - (x_range self).1))
                                    (centre_spacing self)) + 1)
            * Z.to_nat (py_int (fquot A (of_int A ((y_range self).2 - (y_range self).1))
                                      (centre_spacing self)) + 1))%nat)
  /\ (star_pitch A self <> 0%R ->
      exists out,
        StarFillStrategy.generate_points_in A self w
        = Ok (out,
              mkWorld (rand_pos w)
                (pred_calls w
                 + Z.to_nat (py_int (fquot A (of_int A ((x_range self).2 - (x_range self).1))
                                           (2 * star_pitch A self)) + 1)
                   * Z.to_nat (py_int (fquot A (of_int A ((y_range self).2 - (y_range self).1))
                                             (star_pitch A self)) + 1)))
        /\ (length out
            <= Z.to_nat (py_int (fquot A (of_int A ((x_range self).2 - (x_range self).1))
                                       (2 * star_pitch A self)) + 1)
               * Z.to_nat (py_int (fquot A (of_int A ((y_range self).2 - (y_range self).1))
                                         (star_pitch A self)) + 1))%nat).
Proof.
  intros HA. split.
  - intros Hs. rewrite grid_run_in by done. eexists. split; [done|].
    rewrite <- !py_range_length. apply lattice_length_le.
  - intros Hp. rewrite star_run_in by done. eexists. split; [done|].
    rewrite <- !py_range_length. apply lattice_length_le.
Qed.

Lemma grid_star_cost_witness :
  (centre_spacing square_example <> 0%R ->
   exists out,
     GridFillStrategy.generate_points_in exact square_example (mkWorld 0 0)
     = Ok (out,
           mkWorld (rand_pos (mkWorld 0 0))
             (pred_calls (mkWorld 0 0)
              + Z.to_nat (py_int (fquot exact
                                    (of_int exact ((x_range square_example).2
                                                   - (x_range square_example).1))
                                    (centre_spacing square_example)) + 1)
                * Z.to_nat (py_int (fquot exact
                                      (of_int exact ((y_range square_example).2
                                                     - (y_range square_example).1))
                                      (centre_spacing square_example)) + 1)))
     /\ (length out
         <= Z.to_nat (py_int (fquot exact
                                (of_int exact ((x_range square_example).2
                                               - (x_range square_example).1))
                                (centre_spacing square_example)) + 1)
            * Z.to_nat (py_int (fquot exact
                                  (of_int exact ((y_range square_example).2
                                                 - (y_range square_example).1))
                                  (centre_spacing square_example)) + 1))%nat)
  /\ (star_pitch exact square_example <> 0%R ->
      exists out,
        StarFillStrategy.generate_points_in exact square_example (mkWorld 0 0)
        = Ok (out,
              mkWorld (rand_pos (mkWorld 0 0))
                (pred_calls (mkWorld 0 0)
                 + Z.to_nat (py_int (fquot exact
                                       (of_int exact ((x_range square_example).2
                                                      - (x_range square_example).1))
                                       (2 * star_pitch exact square_example)) + 1)
                   * Z.to_nat (py_int (fquot exact
                                         (of_int exact ((y_range square_example).2
                                                        - (y_range square_example).1))
                                         (star_pitch exact square_example)) + 1)))
        /\ (length out
            <= Z.to_nat (py_int (fquot exact
                                   (of_int exact ((x_range square_example).2
                                                  - (x_range square_example).1))
                                   (2 * star_pitch exact square_example)) + 1)
               * Z.to_nat (py_int (fquot exact
                                     (of_int exact ((y_range square_example).2
                                                    - (y_range square_example).1))
                                     (star_pitch exact square_example)) + 1))%nat).
Proof.
  apply (grid_star_cost exact square_example (mkWorld 0 0)). apply exact_lawful.
Defined.

(** ** Grid and Star: where the points lie *)








(** The bound of X13 on [x] cannot be [x_max]: with the x range (0, 3), the y
    range (0, 2), spacing 2 and the always-true predicate, the star strategy
    returns the point (4, 1). *)
Example star_leaves_rectangle :
  exists out w',
    StarFillStrategy.generate_points
      (mkFillStrategy (0, 3) (0, 2) (fun _ _ => true) 2) (mkWorld 0 0)
    = Ok (out, w')
    /\ (4, 1) ∈ out.
Proof.
  pose proof (star_run (mkFillStrategy (0, 3) (0, 2) (fun _ _ => true) 2)
                (mkWorld 0 0)) as ->; [|simpl; lra].
  cbv zeta. eexists _, _. split; [done|].
  pose proof sqrt2_bounds as [Hlo Hhi]. pose proof sqrt2_sqr as Hsq.
  pose proof sqrt2_pos as Hpos.
  cbn [x_range y_range centre_spacing valid_predicate fst snd].
  change (IZR (3 - 0)) with 3%R. change (IZR (2 - 0)) with 2%R.
  assert (2 / sqrt 2 = sqrt 2)%R as -> by (field_simplify_eq; lra).
  assert (py_int (3 / (2 * sqrt 2)) = 1) as ->.
  { apply py_int_eq_nonneg.
    - apply Rmult_le_pos; [lra|]. left. apply Rinv_0_lt_compat. lra.
    - simpl. split.
      + apply Rmult_le_reg_r with (2 * sqrt 2)%R; [lra|].
        unfold Rdiv. rewrite Rmult_assoc, Rinv_l by lra. lra.
      + apply Rmult_lt_reg_r with (2 * sqrt 2)%R; [lra|].
        unfold Rdiv. rewrite Rmult_assoc, Rinv_l by lra. lra. }
  assert (py_int (2 / sqrt 2) = 1) as ->.
  { apply py_int_eq_nonneg.
    - apply Rmult_le_pos; [lra|]. left. apply Rinv_0_lt_compat. lra.
    - simpl. split.
      + apply Rmult_le_reg_r with (sqrt 2); [lra|].
        unfold Rdiv. rewrite Rmult_assoc, Rinv_l by lra. lra.
      + apply Rmult_lt_reg_r with (sqrt 2); [lra|].
        unfold Rdiv. rewrite Rmult_assoc, Rinv_l by lra. lra. }
  apply elem_of_lattice. exists 1, 1.
  split; [lia|]. split; [lia|]. split; [|done].
  unfold StarFillStrategy.candidate. cbn [x_range y_range fst snd].
  change (1 mod 2 =? 0) with false. cbv iota.
  f_equal; symmetry.
  - apply py_round_down. simpl. lra.
  - apply py_round_down. simpl. lra.
Qed.

(** ** Grid and Star: spacing of the points *)

















(** ** Errors: a spacing of zero *)



(** ** FillArea: the areas of the board on copper layers *)

Lemma filter_layer_app (layer : Z) (l1 l2 : list FillArea.Area) :
  List.filter (fun a => FillArea.GetLayer a =? layer) (l1 ++ l2)
  = List.filter (fun a => FillArea.GetLayer a =? layer) l1
    ++ List.filter (fun a => FillArea.GetLayer a =? layer) l2.
Proof. apply List.filter_app. Qed.

Lemma place_areas_spec (S : gset Z) (l seen : list FillArea.Area)
    (areas : gmap Z (list FillArea.Area)) :
  (forall layer,
     areas !! layer
     = if decide (layer ∈ S)
       then Some (List.filter (fun a => FillArea.GetLayer a =? layer) seen)
       else None) ->
  Forall (fun a => FillArea.GetLayer a ∈ S) l ->
  exists result,
    FillArea.place_areas l areas = inr result
    /\ forall layer,
         result !! layer
         = if decide (layer ∈ S)
           then Some (List.filter (fun a => FillArea.GetLayer a =? layer) (seen ++ l))
           else None.
Proof.
  revert seen areas. induction l as [|a l IH]; intros seen areas Hacc Hl.
  - exists areas. split; [done|]. intros layer. by rewrite app_nil_r.
  - apply Forall_cons in Hl as [Ha Hl]. cbn [FillArea.place_areas].
    unfold FillArea.append_area. rewrite Hacc.
    destruct (decide (FillArea.GetLayer a ∈ S)) as [_|Hn]; [|done].
    destruct (IH (seen ++ [a])
                (<[FillArea.GetLayer a :=
                     List.filter (fun a0 => FillArea.GetLayer a0 =? FillArea.GetLayer a)
                                 seen ++ [a]]> areas)) as (result & Hrun & Hres).
    + intros layer. destruct (decide (layer = FillArea.GetLayer a)) as [->|Hne].
      * rewrite lookup_insert_eq. destruct (decide _) as [_|Hn]; [|done].
        rewrite filter_layer_app. cbn [List.filter]. by rewrite Z.eqb_refl.
      * rewrite lookup_insert_ne by done. rewrite Hacc.
        destruct (decide _) as [_|_]; [|done].
        rewrite filter_layer_app. cbn [List.filter].
        destruct (FillArea.GetLayer a =? layer) eqn:E;
          [apply Z.eqb_eq in E; congruence|]. by rewrite app_nil_r.
    + done.
    + exists result. split; [done|]. intros layer. rewrite Hres.
      by rewrite <- app_assoc.
Qed.

Lemma place_areas_stops (l1 l2 : list FillArea.Area) (a : FillArea.Area)
    (S : gset Z) (seen : list FillArea.Area)
    (areas : gmap Z (list FillArea.Area)) :
  (forall layer,
     areas !! layer
     = if decide (layer ∈ S)
       then Some (List.filter (fun a => FillArea.GetLayer a =? layer) seen)
       else None) ->
  Forall (fun a => FillArea.GetLayer a ∈ S) l1 ->
  FillArea.GetLayer a ∉ S ->
  FillArea.place_areas (l1 ++ a :: l2) areas
  = inl (FillArea.mkKeyError (FillArea.GetLayer a)).
Proof.
  revert seen areas. induction l1 as [|b l1 IH]; intros seen areas Hacc Hl Ha.
  - cbn [app FillArea.place_areas]. unfold FillArea.append_area. rewrite Hacc.
    by destruct (decide _).
  - apply Forall_cons in Hl as [Hb Hl]. cbn [app FillArea.place_areas].
    unfold FillArea.append_area. rewrite Hacc.
    destruct (decide (FillArea.GetLayer b ∈ S)) as [_|Hn]; [|done].
    apply (IH (seen ++ [b])); [|done..].
    intros layer. destruct (decide (layer = FillArea.GetLayer b)) as [->|Hne].
    + rewrite lookup_insert_eq. destruct (decide _) as [_|Hn]; [|done].
      rewrite filter_layer_app. cbn [List.filter]. by rewrite Z.eqb_refl.
    + rewrite lookup_insert_ne by done. rewrite Hacc.
      destruct (decide _) as [_|_]; [|done].
      rewrite filter_layer_app. cbn [List.filter].
      destruct (FillArea.GetLayer b =? layer) eqn:E;
        [apply Z.eqb_eq in E; congruence|]. by rewrite app_nil_r.
Qed.

Lemma empty_lists_lookup (S : gset Z) (layer : Z) :
  (gset_to_gmap [] S : gmap Z (list FillArea.Area)) !! layer
  = if decide (layer ∈ S)
    then Some (List.filter (fun a => FillArea.GetLayer a =? layer) [])
    else None.
Proof.
  rewrite lookup_gset_to_gmap. destruct (decide (layer ∈ S)) as [H|H].
  - by rewrite option_guard_True.
  - by rewrite option_guard_False.
Qed.

Lemma filter_filter_layer (f : FillArea.Area -> bool) (layer : Z)
    (l : list FillArea.Area) :
  List.filter (fun a => FillArea.GetLayer a =? layer) (List.filter f l)
  = List.filter (fun a => f a && (FillArea.GetLayer a =? layer)) l.
Proof.
  induction l as [|a l IH]; [done|]. cbn [List.filter].
  destruct (f a); cbn [List.filter andb]; by rewrite IH.
Qed.

(** X17: when every area of the board that passes the filter lies on an
    enabled copper layer, [_get_areas_on_copper] returns a dict whose keys
    are the enabled copper layers and whose value at a layer is the list of
    the areas that pass the filter and lie on that layer, in the order of
    their index on the board; a layer with no such area has the empty
    list. *)
Theorem areas_on_copper_grouped (pcb : FillArea.Board) (net_name : option string)
    (only_selected : bool) (timestamp : option Z) :
  (forall a, a ∈ FillArea.areas_of pcb ->
     FillArea.predicate net_name only_selected timestamp a = true ->
     FillArea.GetLayer a ∈ FillArea.CuStack pcb) ->
  exists result,
    FillArea._get_areas_on_copper pcb net_name only_selected timestamp = inr result
    /\ forall layer,
         result !! layer
         = if decide (layer ∈ FillArea.CuStack pcb)
           then Some (List.filter
                        (fun a => FillArea.predicate net_name only_selected timestamp a
                                  && (FillArea.GetLayer a =? layer))
                        (FillArea.areas_of pcb))
           else None.
Proof.
  intros Hon. unfold FillArea._get_areas_on_copper.
  destruct (place_areas_spec (list_to_set (FillArea.CuStack pcb))
              (List.filter (FillArea.predicate net_name only_selected timestamp)
                           (FillArea.areas_of pcb))
              [] (gset_to_gmap [] (list_to_set (FillArea.CuStack pcb))))
    as (result & Hrun & Hres).
  - apply empty_lists_lookup.
  - apply Forall_forall. intros a Ha.
    apply list_elem_of_In, filter_In in Ha as [Ha Hp].
    apply elem_of_list_to_set. apply Hon; [by apply list_elem_of_In | done].
  - exists result. split; [done|]. intros layer. rewrite Hres. cbn [app].
    rewrite filter_filter_layer.
    destruct (decide (layer ∈ FillArea.CuStack pcb)) as [H|H].
    + rewrite decide_True; [done|]. by apply elem_of_list_to_set.
    + rewrite decide_False; [done|]. by rewrite elem_of_list_to_set.
Qed.

Lemma areas_on_copper_grouped_witness :
  exists result,
    FillArea._get_areas_on_copper FillArea.two_layer_board (Some "GND"%string)
      false None = inr result
    /\ forall layer,
         result !! layer
         = if decide (layer ∈ FillArea.CuStack FillArea.two_layer_board)
           then Some (List.filter
                        (fun a => FillArea.predicate (Some "GND"%string) false None a
                                  && (FillArea.GetLayer a =? layer))
                        (FillArea.areas_of FillArea.two_layer_board))
           else None.
Proof.
  apply (areas_on_copper_grouped FillArea.two_layer_board (Some "GND"%string)
           false None).
  intros a Ha _. simpl in Ha.
  apply list_elem_of_In in Ha. simpl in Ha.
  destruct Ha as [<-|[<-|[<-|[]]]]; simpl; apply list_elem_of_In; simpl; tauto.
Defined.

(** X18: the first area in index order that passes the filter and lies on a
    layer that is not an enabled copper layer makes [_get_areas_on_copper]
    raise [KeyError] with that layer as key. *)
Theorem areas_on_copper_key_error (pcb : FillArea.Board)
    (net_name : option string) (only_selected : bool) (timestamp : option Z)
    (before after : list FillArea.Area) (a : FillArea.Area) :
  FillArea.areas_of pcb = before ++ a :: after ->
  (forall b, b ∈ before ->
     FillArea.predicate net_name only_selected timestamp b = true ->
     FillArea.GetLayer b ∈ FillArea.CuStack pcb) ->
  FillArea.predicate net_name only_selected timestamp a = true ->
  FillArea.GetLayer a ∉ FillArea.CuStack pcb ->
  FillArea._get_areas_on_copper pcb net_name only_selected timestamp
  = inl (FillArea.mkKeyError (FillArea.GetLayer a)).
Proof.
  intros Hsplit Hbefore Hp Hlayer. unfold FillArea._get_areas_on_copper.
  rewrite Hsplit, List.filter_app. cbn [List.filter]. rewrite Hp.
  apply (place_areas_stops _ _ _ (list_to_set (FillArea.CuStack pcb)) []).
  - apply empty_lists_lookup.
  - apply Forall_forall. intros b Hb.
    apply list_elem_of_In, filter_In in Hb as [Hb Hpb].
    apply elem_of_list_to_set. apply Hbefore; [by apply list_elem_of_In | done].
  - by rewrite elem_of_list_to_set.
Qed.

Lemma areas_on_copper_key_error_witness :
  FillArea._get_areas_on_copper FillArea.stray_zone_board None false None
  = inl (FillArea.mkKeyError
           (FillArea.GetLayer (FillArea.mkArea "GND" 0 true false false 31))).
Proof.
  apply (areas_on_copper_key_error FillArea.stray_zone_board None false None
           [] [] (FillArea.mkArea "GND" 0 true false false 31)).
  - reflexivity.
  - intros b Hb. by apply elem_of_nil in Hb.
  - reflexivity.
  - simpl. intros H. apply list_elem_of_In in H. simpl in H.
    destruct H as [H|[]]. discriminate H.
Defined.

(** ** The Bridson strategy asks the predicate only inside the rectangle *)

Lemma in_grid_in_rectangle (self : t) (p : Point) :
  (0 < _cell_size self)%R ->
  _x_steps self = py_int (IZR ((x_range (base self)).2 - (x_range (base self)).1)
                          / _cell_size self) ->
  _y_steps self = py_int (IZR ((y_range (base self)).2 - (y_range (base self)).1)
                          / _cell_size self) ->
  in_grid self (true_cell self p).1 (true_cell self p).2 ->
  in_rectangle (base self) p.
Proof.
  intros Hc Hx Hy [Hgx Hgy].
  unfold true_cell in Hgx, Hgy. cbn [fst snd] in Hgx, Hgy.
  rewrite Hx in Hgx. rewrite Hy in Hgy.
  apply floor_index_bounds in Hgx; [|done]. apply floor_index_bounds in Hgy; [|done].
  unfold in_rectangle. lia.
Qed.

(** X19: on an instance whose step counts are those [__init__] computes for a
    positive cell size, [_is_valid] returns, and when it evaluates the
    predicate it does so once and at a point of the bounding rectangle,
    [x_min <= x < x_max] and [y_min <= y < y_max]: the predicate is never
    asked about a point outside. *)
Theorem is_valid_asks_inside (self : t) (p : Point) (w : World) :
  Inv self -> (0 < _cell_size self)%R ->
  _x_steps self = py_int (IZR ((x_range (base self)).2 - (x_range (base self)).1)
                          / _cell_size self) ->
  _y_steps self = py_int (IZR ((y_range (base self)).2 - (y_range (base self)).1)
                          / _cell_size self) ->
  exists b w',
    _is_valid self p w = Ok (b, w')
    /\ (w' = w
        \/ (w' = mkWorld (rand_pos w) (S (pred_calls w))
            /\ in_rectangle (base self) p)).
Proof.
  intros HI Hc Hx Hy. unfold _is_valid, bind.
  rewrite cell_index_ok by apply HI.
  destruct (true_cell self p) as [x_i y_i] eqn:Et.
  destruct (out_of_grid self x_i y_i) eqn:Eg.
  { exists false, w. split; [done | by left]. }
  apply out_of_grid_false in Eg.
  destruct (in_grid_cell self (_points self) _ _ (inv_points _ HI) Eg) as [c Hcell].
  rewrite (get2d_ok _ _ _ c) by (done || (destruct Eg; lia)).
  destruct c as [q|].
  { exists false, w. split; [done | by left]. }
  destruct (neighbours_clear_spec self p x_i y_i OFFSETS w (inv_points _ HI))
    as (b & -> & _).
  destruct b.
  - unfold call_predicate. eexists _, _. split; [done|]. right. split; [done|].
    apply in_grid_in_rectangle; [done..|]. by rewrite Et.
  - exists false, w. split; [done | by left].
Qed.

Lemma is_valid_asks_inside_witness :
  exists b w',
    _is_valid (one_cell_marked None) (0, 0) (mkWorld 0 0) = Ok (b, w')
    /\ (w' = mkWorld 0 0
        \/ (w' = mkWorld (rand_pos (mkWorld 0 0)) (S (pred_calls (mkWorld 0 0)))
            /\ in_rectangle (base (one_cell_marked None)) (0, 0))).
Proof.
  apply (is_valid_asks_inside (one_cell_marked None) (0, 0) (mkWorld 0 0)).
  - apply one_cell_marked_Inv.
  - simpl. rewrite two_over_sqrt2. apply sqrt2_pos.
  - simpl. symmetry. apply one_cell_steps.
  - simpl. symmetry. apply one_cell_steps.
Defined.
